(** * Elgato Key Light control: discovery and control operations

    A shallow embedding of [elgato.ts], the class [KeyLight] that the
    commands of the extension drive.

    Conventions of the embedding:
    - a JavaScript [number] is an exact rational ([Q]); the values the code
      computes here are sums and differences of device readings with the
      constants 5, 100, 143, 344 and 201/20, compared with [Math.min] and
      [Math.max]; the rounding of IEEE doubles, [NaN] and the infinities
      are left out. Bounds proved here hold for every reading; an equation
      between a reading and the number sent is stated for whole readings
      inside the domain of the field: there adding or subtracting 5 is
      exact in doubles too, and a sum with the step 201/20 stands for the
      double nearest to it, which is not whole either;
    - a JavaScript string is a [string]; a character is a code unit below 256;
    - [async] functions are computations over an explicit environment that
      holds the static field [KeyLight.keyLights], the network and the list
      of requests sent so far; a [throw] is an abrupt completion;
    - the callbacks registered by [discover] (Bonjour's service callback and
      the [setTimeout] callback) are the transitions of a state machine. *)

From Stdlib Require Import ZArith QArith Qminmax Qcanon Lqa String Ascii List.
From stdpp Require Import base gmap strings list pretty.

Open Scope string_scope.
Open Scope list_scope.

(** ** JavaScript built-ins used by the source *)

Module JS.

(** [Math.min] and [Math.max] on two numbers. *)
Definition Math_min (a b : Q) : Q := Qmin a b.
Definition Math_max (a b : Q) : Q := Qmax a b.

(** A number is an integer when its reduced denominator is 1. *)
Definition isInteger (q : Q) : bool := Pos.eqb (Qden (Qred q)) 1.

(** White space and line terminators that [String.prototype.trim]
    strips, among the code units below 256: TAB, LF, VT, FF, CR, SP and
    NBSP. *)
Definition isWhiteSpace (c : ascii) : bool :=
  let n := N_of_ascii c in
  ((9 <=? n) && (n <=? 13) || (n =? 32) || (n =? 160))%N.

Fixpoint trimStart (s : string) : string :=
  match s with
  | EmptyString => EmptyString
  | String c rest => if isWhiteSpace c then trimStart rest else s
  end.

Fixpoint trimEnd (s : string) : string :=
  match s with
  | EmptyString => EmptyString
  | String c rest =>
      match trimEnd rest with
      | EmptyString => if isWhiteSpace c then EmptyString else String c EmptyString
      | kept => String c kept
      end
  end.

(** [s.trim()] *)
Definition trim (s : string) : string := trimEnd (trimStart s).

(** [s.split(sep)] for a one-character separator: the pieces between the
    separators, in order; a string without separator is its only piece
    (so the empty string has the empty string as its only piece). *)
Fixpoint split (sep : ascii) (s : string) : list string :=
  match s with
  | EmptyString => [EmptyString]
  | String c rest =>
      if Ascii.eqb c sep then EmptyString :: split sep rest
      else match split sep rest with
           | [] => [String c EmptyString]
           | piece :: pieces => String c piece :: pieces
           end
  end.

(** Truthiness of a string ([if (s)]) and of an integer number. *)
Definition truthy_string (s : string) : bool :=
  match s with EmptyString => false | _ => true end.
Definition truthy_int (n : Z) : bool := negb (n =? 0)%Z.

Definition digit (c : ascii) : option Z :=
  let n := N_of_ascii c in
  if ((48 <=? n) && (n <=? 57))%N then Some (Z.of_N n - 48)%Z else None.

Fixpoint digits (s : string) (acc : option Z) : option Z :=
  match s with
  | EmptyString => acc
  | String c rest =>
      match digit c with
      | Some d => digits rest (Some (10 * default 0%Z acc + d)%Z)
      | None => acc
      end
  end.

(** [parseInt(s, 10)]: leading white space is skipped, a sign is read,
    then the longest run of decimal digits; [None] stands for [NaN]. *)
Definition parseInt (s : string) : option Z :=
  match trimStart s with
  | String "-" rest => Z.opp <$> digits rest None
  | String "+" rest => digits rest None
  | body => digits body None
  end.

(** A promise is pending until it is settled, once and for all. *)
Inductive Promise (E : Type) : Type :=
| Pending
| Fulfilled
| Rejected (reason : E).
Arguments Pending {E}.
Arguments Fulfilled {E}.
Arguments Rejected {E} reason.

Definition resolve {E} (p : Promise E) : Promise E :=
  match p with Pending => Fulfilled | settled => settled end.
Definition reject {E} (reason : E) (p : Promise E) : Promise E :=
  match p with Pending => Rejected reason | settled => settled end.

End JS.

(** ** Data of [elgato.ts] *)

Definition WARM_TEMPERATURE : Q := 344.
Definition COLD_TEMPERATURE : Q := 143.
Definition TEMPERATURE_STEP : Q := (WARM_TEMPERATURE - COLD_TEMPERATURE) / 20.

Record Preferences := {
  keyLights_count : string;
  keyLights_ips : option string
}.

(** Config for a single keylight. *)
Record KeylightConfig := {
  ip : string;
  port : Z
}.

(** The first element of [lights] in a device's answer. *)
Record Light := {
  on : bool;
  brightness : Q;
  temperature : Q
}.

(** The [options] argument of [updateKeyLight]: every field is optional. *)
Record Options := {
  opt_brightness : option Q;
  opt_temperature : option Q;
  opt_on : option bool
}.

Definition only_on (b : bool) : Options :=
  {| opt_brightness := None; opt_temperature := None; opt_on := Some b |}.
Definition only_brightness (q : Q) : Options :=
  {| opt_brightness := Some q; opt_temperature := None; opt_on := None |}.
Definition only_temperature (q : Q) : Options :=
  {| opt_brightness := None; opt_temperature := Some q; opt_on := None |}.

(** What can be thrown: an [Error] built by this code with its message, a
    [TypeError] of the runtime (a property read on [undefined]), or the
    error of a failed HTTP request. *)
Inductive Exn :=
| Error (message : string)
| TypeError
| AxiosError.

(** A request that went out on the network. *)
Inductive Request :=
| GET (url : string)
| PUT (url : string) (lights : list Options)
| BROWSE (type : string).

(** What the command gets back from a control operation. *)
Inductive Value :=
| undefined
| boolean (b : bool)
| number (q : Q).

Definition value_of_bool (v : option bool) : Value :=
  match v with Some b => boolean b | None => undefined end.
Definition value_of_number (v : option Q) : Value :=
  match v with Some q => number q | None => undefined end.

(** ** Computations: environment passing with abrupt completion *)

Inductive Completion (A : Type) : Type :=
| Normal (a : A)
| Throw (e : Exn).
Arguments Normal {A} a.
Arguments Throw {A} e.

(** The HTTP client, over a network of type [W]:
    [axios.get(url)] answers with the [lights] array of [response.data],
    [axios.put(url, { lights })] with nothing; either may throw. *)
Class Axios (W : Type) := {
  axios_get : string -> W -> Completion (list Light) * W;
  axios_put : string -> list Options -> W -> Completion unit * W
}.

Record Env (W : Type) := {
  keyLights : list KeylightConfig;
  network : W;
  requests : list Request
}.
Arguments keyLights {W} _.
Arguments network {W} _.
Arguments requests {W} _.

Definition Async (W A : Type) : Type := Env W -> Completion A * Env W.

Definition ret {W A} (a : A) : Async W A := fun env => (Normal a, env).
Definition throw {W A} (e : Exn) : Async W A := fun env => (Throw e, env).
Definition bind {W A B} (m : Async W A) (k : A -> Async W B) : Async W B :=
  fun env =>
    match m env with
    | (Normal a, env') => k a env'
    | (Throw e, env') => (Throw e, env')
    end.
Definition try_catch {W A} (m : Async W A) (handler : Exn -> Async W A) : Async W A :=
  fun env =>
    match m env with
    | (Normal a, env') => (Normal a, env')
    | (Throw e, env') => handler e env'
    end.

Notation "'let!' x ':=' m 'in' k" := (bind m (fun x => k))
  (at level 10, x name, m at level 100, k at level 200, only parsing).
Notation "'do!' m 'in' k" := (bind m (fun _ => k))
  (at level 10, m at level 100, k at level 200, only parsing).

(** [for (const x of xs) body], where [v] is the variable declared before
    the loop and assigned in its body. *)
Fixpoint for_of {W X V} (xs : list X) (v : V) (body : X -> V -> Async W V) : Async W V :=
  match xs with
  | [] => ret v
  | x :: rest => let! v' := body x v in for_of rest v' body
  end.

(** Reading a property of a value that may be [undefined]. *)
Definition prop {W A B} (field : A -> B) (obj : option A) : Async W B :=
  match obj with
  | Some o => ret (field o)
  | None => throw TypeError
  end.

Definition read_keyLights {W} : Async W (list KeylightConfig) :=
  fun env => (Normal (keyLights env), env).

Definition send {W} (r : Request) : Async W unit :=
  fun env =>
    (Normal tt,
     {| keyLights := keyLights env; network := network env;
        requests := requests env ++ [r] |}).

Definition on_network {W A} (call : W -> Completion A * W) : Async W A :=
  fun env =>
    let (answer, w) := call (network env) in
    (answer, {| keyLights := keyLights env; network := w; requests := requests env |}).

(** The environment after request [r] went out and left the network as [w]. *)
Definition after_request {W} (env : Env W) (r : Request) (w : W) : Env W :=
  {| keyLights := keyLights env; network := w; requests := requests env ++ [r] |}.

(** ** The class [KeyLight]: device client and control operations *)

Definition lights_url (config : KeylightConfig) : string :=
  "http://" +:+ ip config +:+ ":" +:+ pretty (port config) +:+ "/elgato/lights".

Section KeyLight.
Context {W : Type} `{Axios W}.

(** [response.data.lights[0]], which is [undefined] on an empty array. *)
Definition getKeyLight (config : KeylightConfig) : Async W (option Light) :=
  let url := lights_url config in
  try_catch
    (do! send (GET url) in
     let! lights := on_network (axios_get url) in
     ret (head lights))
    (fun _ => throw (Error ("Failed to fetch Key Light state from " +:+ url))).

Definition updateKeyLight (config : KeylightConfig) (options : Options) : Async W unit :=
  let url := lights_url config in
  try_catch
    (do! send (PUT url [options]) in
     on_network (axios_put url [options]))
    (fun _ => throw (Error ("Failed to update Key Light state at " +:+ url))).

Definition toggle : Async W (option bool) :=
  let! registry := read_keyLights in
  for_of registry None (fun keyLight _ =>
    try_catch
      (let! state := getKeyLight keyLight in
       let! state_on := prop on state in
       let newState := negb state_on in
       do! updateKeyLight keyLight (only_on newState) in
       ret (Some newState))
      (fun _ => throw (Error ("Failed toggling Key Light at " +:+ ip keyLight)))).

Definition increaseBrightness : Async W (option Q) :=
  let! registry := read_keyLights in
  for_of registry None (fun keyLight _ =>
    try_catch
      (let! state := getKeyLight keyLight in
       let! state_brightness := prop brightness state in
       let newBrightness := JS.Math_min (state_brightness + 5) 100 in
       do! updateKeyLight keyLight (only_brightness newBrightness) in
       ret (Some newBrightness))
      (fun _ => throw (Error ("Failed increasing brightness for " +:+ ip keyLight)))).

Definition decreaseBrightness : Async W (option Q) :=
  let! registry := read_keyLights in
  for_of registry None (fun keyLight _ =>
    try_catch
      (let! state := getKeyLight keyLight in
       let! state_brightness := prop brightness state in
       let newBrightness := JS.Math_max (state_brightness - 5) 0 in
       do! updateKeyLight keyLight (only_brightness newBrightness) in
       ret (Some newBrightness))
      (fun _ => throw (Error ("Failed decreasing brightness for " +:+ ip keyLight)))).

Definition increaseTemperature : Async W (option Q) :=
  let! registry := read_keyLights in
  for_of registry None (fun keyLight _ =>
    try_catch
      (let! state := getKeyLight keyLight in
       let! state_temperature := prop temperature state in
       let newTemperature :=
         JS.Math_min (state_temperature + TEMPERATURE_STEP) WARM_TEMPERATURE in
       do! updateKeyLight keyLight (only_temperature newTemperature) in
       ret (Some newTemperature))
      (fun _ => throw (Error ("Failed increasing temperature for " +:+ ip keyLight)))).

Definition decreaseTemperature : Async W (option Q) :=
  let! registry := read_keyLights in
  for_of registry None (fun keyLight _ =>
    try_catch
      (let! state := getKeyLight keyLight in
       let! state_temperature := prop temperature state in
       let newTemperature :=
         JS.Math_max (state_temperature - TEMPERATURE_STEP) COLD_TEMPERATURE in
       do! updateKeyLight keyLight (only_temperature newTemperature) in
       ret (Some newTemperature))
      (fun _ => throw (Error ("Failed decreasing temperature for " +:+ ip keyLight)))).

End KeyLight.

(** ** [KeyLight.discover] *)

(** What Bonjour hands to the callback of [find]: the fields of a
    [RemoteService] that the callback reads. *)
Record Referer := {
  address : string
}.

Record RemoteService := {
  referer : option Referer;
  service_port : Z   (* [service.port] *)
}.

(** The state that the two callbacks of [discover] share once it has
    started browsing: the registry (inside [browse_env]), the promise
    [find], whether the Bonjour instance is still up ([bonjour.destroy()]
    closes its sockets, after which it delivers no service any more),
    whether the timer is still to fire, and [count]. A fulfilled [find]
    holds the array [KeyLight.keyLights] itself, see [find_value]. *)
Record Browsing (W : Type) := {
  browse_env : Env W;
  find : JS.Promise Exn;
  bonjour_up : bool;
  timer_armed : bool;
  count : option Z
}.
Arguments browse_env {W} _.
Arguments find {W} _.
Arguments bonjour_up {W} _.
Arguments timer_armed {W} _.
Arguments count {W} _.

Definition registry {W} (b : Browsing W) : list KeylightConfig :=
  keyLights (browse_env b).

Definition find_value {W} (b : Browsing W) : option (list KeylightConfig) :=
  match find b with
  | JS.Fulfilled => Some (registry b)
  | _ => None
  end.

Definition with_keyLights {W} (kls : list KeylightConfig) (env : Env W) : Env W :=
  {| keyLights := kls; network := network env; requests := requests env |}.

(** [KeyLight.keyLights.length === count] *)
Definition length_is (kls : list KeylightConfig) (count : option Z) : bool :=
  match count with
  | Some n => (Z.of_nat (length kls) =? n)%Z
  | None => false
  end.

Definition no_devices : Exn := Error "Cannot discover any Key Lights in the network".

Section Discover.
Context {W : Type}.

(** The callback given to [bonjour.find]. *)
Definition on_service (service : RemoteService) (b : Browsing W) : Browsing W :=
  match referer service with
  | Some r =>
      if JS.truthy_string (address r) && JS.truthy_int (service_port service) then
        let keylightConfig := {| ip := address r; port := service_port service |} in
        let pushed := registry b ++ [keylightConfig] in
        if length_is pushed (count b) then
          {| browse_env := with_keyLights pushed (browse_env b);
             find := JS.resolve (find b);
             bonjour_up := false;
             timer_armed := timer_armed b;
             count := count b |}
        else
          {| browse_env := with_keyLights pushed (browse_env b);
             find := find b;
             bonjour_up := bonjour_up b;
             timer_armed := timer_armed b;
             count := count b |}
      else b
  | None => b
  end.

(** The callback given to [setTimeout]. *)
Definition on_timeout (b : Browsing W) : Browsing W :=
  if (length (registry b) =? 0)%nat then
    {| browse_env := browse_env b;
       find := JS.reject no_devices (find b);
       bonjour_up := bonjour_up b;
       timer_armed := timer_armed b;
       count := count b |}
  else b.

(** What can happen while [find] is awaited. *)
Inductive Event :=
| Announced (service : RemoteService)   (* Bonjour saw a service *)
| Elapsed.                              (* the 5000 ms are over *)

Definition disarm (b : Browsing W) : Browsing W :=
  {| browse_env := browse_env b; find := find b; bonjour_up := bonjour_up b;
     timer_armed := false; count := count b |}.

Definition deliver (b : Browsing W) (ev : Event) : Browsing W :=
  match ev with
  | Announced service => if bonjour_up b then on_service service b else b
  | Elapsed => if timer_armed b then on_timeout (disarm b) else b
  end.

Definition deliver_all (b : Browsing W) (evs : list Event) : Browsing W :=
  fold_left deliver evs b.

(** [discover] either returns at once (static IPs) or leaves the promise
    [find] to be settled by the callbacks. *)
Inductive Discovery :=
| Returned (env : Env W)
| Awaiting (b : Browsing W).

Definition browse (preferences : Preferences) (env : Env W) : Browsing W :=
  {| browse_env :=
       {| keyLights := []; network := network env;
          requests := requests env ++ [BROWSE "elg"] |};
     find := JS.Pending;
     bonjour_up := true;
     timer_armed := true;
     count := JS.parseInt (keyLights_count preferences) |}.

Definition discover (preferences : Preferences) (env : Env W) : Discovery :=
  match keyLights_ips preferences with
  | Some listed =>
      if JS.truthy_string listed then
        let ips := map JS.trim (JS.split "," listed) in
        Returned (with_keyLights (map (fun ip => {| ip := ip; port := 9123 |}) ips) env)
      else Awaiting (browse preferences env)
  | None => Awaiting (browse preferences env)
  end.

End Discover.
Arguments Discovery : clear implicits.

(** ** A network of devices

    Devices as the wire protocol has them: a device answers a GET on its
    URL with its [lights], and merges the fields of a PUT into them; a
    device may refuse writes, and an URL nobody listens on fails. *)

Record Device := {
  lights : list Light;
  writable : bool
}.

Definition merge (options : Options) (l : Light) : Light :=
  {| on := default (on l) (opt_on options);
     brightness := default (brightness l) (opt_brightness options);
     temperature := default (temperature l) (opt_temperature options) |}.

Fixpoint merge_all (body : list Options) (ls : list Light) : list Light :=
  match body, ls with
  | options :: body', l :: ls' => merge options l :: merge_all body' ls'
  | _, _ => ls
  end.

Definition written (body : list Options) (d : Device) : Device :=
  {| lights := merge_all body (lights d); writable := writable d |}.

Definition lan_get (url : string) (lan : gmap string Device)
  : Completion (list Light) * gmap string Device :=
  match lan !! url with
  | Some d => (Normal (lights d), lan)
  | None => (Throw AxiosError, lan)
  end.

Definition lan_put (url : string) (body : list Options) (lan : gmap string Device)
  : Completion unit * gmap string Device :=
  match lan !! url with
  | Some d =>
      if writable d then (Normal tt, <[url := written body d]> lan)
      else (Throw AxiosError, lan)
  | None => (Throw AxiosError, lan)
  end.

#[export] Instance lan_axios : Axios (gmap string Device) :=
  {| axios_get := lan_get; axios_put := lan_put |}.

Definition start (kls : list KeylightConfig) (lan : gmap string Device)
  : Env (gmap string Device) :=
  {| keyLights := kls; network := lan; requests := [] |}.

(** ** The five control operations, seen together

    The operations differ in the field they read, the value they compute,
    the option they push and the text of their error. *)

Inductive Operation :=
| Toggle
| IncreaseBrightness
| DecreaseBrightness
| IncreaseTemperature
| DecreaseTemperature.

(** The [options] an operation pushes after it fetched [state]. *)
Definition pushed (op : Operation) (state : Light) : Options :=
  match op with
  | Toggle => only_on (negb (on state))
  | IncreaseBrightness => only_brightness (JS.Math_min (brightness state + 5) 100)
  | DecreaseBrightness => only_brightness (JS.Math_max (brightness state - 5) 0)
  | IncreaseTemperature =>
      only_temperature (JS.Math_min (temperature state + TEMPERATURE_STEP) WARM_TEMPERATURE)
  | DecreaseTemperature =>
      only_temperature (JS.Math_max (temperature state - TEMPERATURE_STEP) COLD_TEMPERATURE)
  end.

(** The value an operation holds in its local variable after [state]. *)
Definition computed (op : Operation) (state : Light) : Value :=
  match op with
  | Toggle => boolean (negb (on state))
  | IncreaseBrightness => number (JS.Math_min (brightness state + 5) 100)
  | DecreaseBrightness => number (JS.Math_max (brightness state - 5) 0)
  | IncreaseTemperature =>
      number (JS.Math_min (temperature state + TEMPERATURE_STEP) WARM_TEMPERATURE)
  | DecreaseTemperature =>
      number (JS.Math_max (temperature state - TEMPERATURE_STEP) COLD_TEMPERATURE)
  end.

(** The error an operation throws when it fails on [keyLight]. *)
Definition failure (op : Operation) (keyLight : KeylightConfig) : Exn :=
  Error ((match op with
          | Toggle => "Failed toggling Key Light at "
          | IncreaseBrightness => "Failed increasing brightness for "
          | DecreaseBrightness => "Failed decreasing brightness for "
          | IncreaseTemperature => "Failed increasing temperature for "
          | DecreaseTemperature => "Failed decreasing temperature for "
          end) +:+ ip keyLight).

Definition returning {W A B} (f : A -> B) (m : Async W A) : Async W B :=
  fun env =>
    match m env with
    | (Normal a, env') => (Normal (f a), env')
    | (Throw e, env') => (Throw e, env')
    end.

Inductive Phase := Fetch | Push.

(** The URL a request is addressed to. *)
Definition target (r : Request) : option string :=
  match r with
  | GET url => Some url
  | PUT url _ => Some url
  | BROWSE _ => None
  end.

Section Operations.
Context {W : Type} `{Axios W}.

Definition run (op : Operation) : Async W Value :=
  match op with
  | Toggle => returning value_of_bool toggle
  | IncreaseBrightness => returning value_of_number increaseBrightness
  | DecreaseBrightness => returning value_of_number decreaseBrightness
  | IncreaseTemperature => returning value_of_number increaseTemperature
  | DecreaseTemperature => returning value_of_number decreaseTemperature
  end.

(** One turn of the loop of [op], on [keyLight]. *)
Definition attempt (op : Operation) (keyLight : KeylightConfig) : Async W Value :=
  fun env =>
    match getKeyLight keyLight env with
    | (Normal (Some state), env1) =>
        match updateKeyLight keyLight (pushed op state) env1 with
        | (Normal _, env2) => (Normal (computed op state), env2)
        | (Throw _, env2) => (Throw (failure op keyLight), env2)
        end
    | (Normal None, env1) => (Throw (failure op keyLight), env1)
    | (Throw _, env1) => (Throw (failure op keyLight), env1)
    end.

(** The network can answer a GET on [url] with [state] as first light. *)
Definition answers (url : string) (state : Light) : Prop :=
  exists w lights, fst (axios_get url w) = Normal lights /\ head lights = Some state.

End Operations.

(** ** What [toggle] does to a network of devices *)

(** A device lets [toggle] through when it answers with at least one
    light and accepts the write. *)
Definition responsive (lan : gmap string Device) (keyLight : KeylightConfig) : bool :=
  match lan !! lights_url keyLight with
  | Some d => match lights d with _ :: _ => writable d | [] => false end
  | None => false
  end.

Definition switched (d : Device) : Device :=
  match lights d with
  | l :: _ => written [only_on (negb (on l))] d
  | [] => d
  end.

Definition switch (url : string) (lan : gmap string Device) : gmap string Device :=
  alter switched url lan.

(** The network after a call of [toggle] over the registry [kls]: the
    devices are switched in turn, up to the first one that fails. *)
Fixpoint toggled (kls : list KeylightConfig) (lan : gmap string Device)
  : gmap string Device :=
  match kls with
  | [] => lan
  | keyLight :: rest =>
      if responsive lan keyLight then toggled rest (switch (lights_url keyLight) lan)
      else lan
  end.

(** ** Words for the static address list *)

(** How often [c] occurs in [s]. *)
Fixpoint occurrences (c : ascii) (s : string) : nat :=
  match s with
  | EmptyString => 0
  | String c' rest => (if Ascii.eqb c' c then 1 else 0) + occurrences c rest
  end.

(** [s] is made of white space only. *)
Fixpoint blank (s : string) : bool :=
  match s with
  | EmptyString => true
  | String c rest => JS.isWhiteSpace c && blank rest
  end.

Definition first_char (s : string) : option ascii :=
  match s with
  | EmptyString => None
  | String c _ => Some c
  end.

Fixpoint last_char (s : string) : option ascii :=
  match s with
  | EmptyString => None
  | String c EmptyString => Some c
  | String _ rest => last_char rest
  end.

Definition is_space (c : option ascii) : bool :=
  match c with
  | Some c => JS.isWhiteSpace c
  | None => false
  end.

(** [host] is [entry] without the white space around it: white space was
    cut on both sides, and none is left at either end. *)
Definition trimmed (entry host : string) : Prop :=
  exists before after,
    entry = before +:+ host +:+ after /\
    blank before = true /\ blank after = true /\
    is_space (first_char host) = false /\ is_space (last_char host) = false.

(** ** States of a discovery *)

(** While Bonjour is up, [find] is pending or was rejected by the timer. *)
Definition unresolved {W} (b : Browsing W) : Prop :=
  bonjour_up b = true -> find b = JS.Pending \/ find b = JS.Rejected no_devices.

(** Before the timer fires: the timer is armed, and [find] is pending, or
    fulfilled with Bonjour down and a registry that is not empty. *)
Definition awaiting_timer {W} (b : Browsing W) : Prop :=
  timer_armed b = true /\
  (find b = JS.Pending \/
   (find b = JS.Fulfilled /\ bonjour_up b = false /\ registry b <> [])).

(** ** Sample installations *)

Definition desk : KeylightConfig := {| ip := "192.168.1.20"; port := 9123 |}.
Definition shelf : KeylightConfig := {| ip := "192.168.1.21"; port := 9123 |}.

Definition light (power : bool) (b t : Q) : Light :=
  {| on := power; brightness := b; temperature := t |}.

(** A network with one device, behind [keyLight]. *)
Definition alone (keyLight : KeylightConfig) (l : Light) (accepts : bool)
  : gmap string Device :=
  {[ lights_url keyLight := {| lights := [l]; writable := accepts |} ]}.

(** A network on which nobody answers. *)
Definition nobody : gmap string Device := ∅.

Definition idle : Env unit := {| keyLights := []; network := tt; requests := [] |}.


(** Bonjour announces a Key Light at [host]. *)
Definition announce (host : string) : Event :=
  Announced {| referer := Some {| address := host |}; service_port := 9123 |}.

(** Preferences without static IPs, asking for [n] Key Lights. *)
Definition wanted (n : string) : Preferences :=
  {| keyLights_count := n; keyLights_ips := None |}.

(** ** The requests of a control operation *)

(** What an operation exchanges with an endpoint that answered [state]:
    the GET, then the PUT of what it computed. *)
Definition exchange (op : Operation) (fetched : KeylightConfig * Light) : list Request :=
  [GET (lights_url (fst fetched));
   PUT (lights_url (fst fetched)) [pushed op (snd fetched)]].

Definition exchanges (op : Operation) (fetched : list (KeylightConfig * Light))
  : list Request :=
  concat (map (exchange op) fetched).

(** The value of the local variable after the endpoints in [fetched]. *)
Definition last_computed (op : Operation) (fetched : list (KeylightConfig * Light)) : Value :=
  match last fetched with
  | Some (_, state) => computed op state
  | None => undefined
  end.

(** Every endpoint of [fetched] can answer with the state beside it. *)
Definition all_answered {W} `{Axios W} (fetched : list (KeylightConfig * Light)) : Prop :=
  Forall (fun pair => answers (lights_url (fst pair)) (snd pair)) fetched.

(** ** The command of [toggle.ts] *)

(** [isOn ? "Key Light turned on" : "Key Light turned off"] *)
Definition report (isOn : option bool) : string :=
  match isOn with
  | Some true => "Key Light turned on"
  | _ => "Key Light turned off"
  end.

(** The command either runs to its end, or is left at
    [await KeyLight.discover()] with the promise [find] pending. *)
Inductive Run (W : Type) : Type :=
| Finished (outcome : Completion string * Env W)
| Suspended (b : Browsing W).
Arguments Finished {W} outcome.
Arguments Suspended {W} b.

Definition command {W} `{Axios W} (preferences : Preferences) (env : Env W) : Run W :=
  match discover preferences env with
  | Returned keyLight =>
      Finished ((let! isOn := toggle in ret (report isOn)) keyLight)
  | Awaiting b => Suspended b
  end.

(** ** Announcements seen by [discover] *)

(** The endpoint that the callback of [find] makes of a service, when the
    service has an address and a port. *)
Definition endpoint_of (service : RemoteService) : option KeylightConfig :=
  match referer service with
  | Some r =>
      if JS.truthy_string (address r) && JS.truthy_int (service_port service)
      then Some {| ip := address r; port := service_port service |}
      else None
  | None => None
  end.

Definition usable (ev : Event) : option KeylightConfig :=
  match ev with
  | Announced service => endpoint_of service
  | Elapsed => None
  end.

(** [found] endpoints are enough for the count: the count is a number, at
    least 1 and at most [found]. *)
Definition reached (count : option Z) (found : nat) : bool :=
  match count with
  | Some n => (1 <=? n)%Z && (n <=? Z.of_nat found)%Z
  | None => false
  end.

(** The first [count] of the endpoints, or all of them when they are not
    enough for the count. *)
Definition first_found (count : option Z) (endpoints : list KeylightConfig)
  : list KeylightConfig :=
  match count with
  | Some n => if reached count (length endpoints) then take (Z.to_nat n) endpoints
              else endpoints
  | None => endpoints
  end.

(** ** Devices before and after an operation *)

(** The fields of a light that [op] does not push are the same in [l']. *)
Definition kept (op : Operation) (l l' : Light) : Prop :=
  match op with
  | Toggle => brightness l' = brightness l /\ temperature l' = temperature l
  | IncreaseBrightness | DecreaseBrightness =>
      on l' = on l /\ temperature l' = temperature l
  | IncreaseTemperature | DecreaseTemperature =>
      on l' = on l /\ brightness l' = brightness l
  end.

(** [d'] is [d] but for the field that [op] pushes, on the first light
    only: the other lights are the same. *)
Definition kept_device (op : Operation) (d d' : Device) : Prop :=
  writable d' = writable d /\
  option_Forall2 (kept op) (head (lights d)) (head (lights d')) /\
  tail (lights d') = tail (lights d).

(** Brightness and temperature of a light are inside their domains. *)
Definition in_domain (l : Light) : Prop :=
  (0 <= brightness l /\ brightness l <= 100 /\
   COLD_TEMPERATURE <= temperature l /\ temperature l <= WARM_TEMPERATURE)%Q.

Definition all_in_domain (lan : gmap string Device) : Prop :=
  forall url d l, lan !! url = Some d -> l ∈ lights d -> in_domain l.

(** ** The outcome of a discovery, told from its events *)

Definition is_elapsed (ev : Event) : bool :=
  match ev with
  | Elapsed => true
  | Announced _ => false
  end.

(** The timer fired before any usable announcement came. *)
Fixpoint timer_came_first (evs : list Event) : bool :=
  match evs with
  | [] => false
  | Elapsed :: _ => true
  | Announced service :: rest =>
      match endpoint_of service with
      | Some _ => false
      | None => timer_came_first rest
      end
  end.

Definition outcome (count : option Z) (evs : list Event) : JS.Promise Exn :=
  if timer_came_first evs then JS.Rejected no_devices
  else if reached count (length (omap usable evs)) then JS.Fulfilled
  else JS.Pending.

(** ** A second sample installation *)

(** Two devices, behind [desk] and [shelf]. *)
Definition both : gmap string Device :=
  <[lights_url shelf := {| lights := [light false 10 200]; writable := true |}]>
    (alone desk (light true 98 200) true).

(** A device that answers with an empty [lights] array. *)
Definition dark (keyLight : KeylightConfig) : gmap string Device :=
  {[ lights_url keyLight := {| lights := []; writable := true |} ]}.

Definition static (listed : string) : Preferences :=
  {| keyLights_count := "1"; keyLights_ips := Some listed |}.

(** ** Temperatures on the grid of twentieths *)

(** [q] is what [increaseTemperature] makes of the integer temperature
    [t]: a whole number of twentieths, an integer only as the bound 344,
    which it is from 334 on, and [t] plus 201/20 below that, an integer
    and one twentieth (it ends in .05). *)
Definition increased_on_grid (t q : Q) : Prop :=
  JS.isInteger (20 * q) = true /\
  (JS.isInteger q = true <-> (334 <= t)%Q) /\
  ((334 <= t)%Q -> (q == WARM_TEMPERATURE)%Q) /\
  ((t < 334)%Q -> (q == t + (201 # 20))%Q) /\
  ((t < 334)%Q -> exists m : Z, (q == inject_Z m + (1 # 20))%Q).

(** [q] is what [decreaseTemperature] makes of the integer temperature
    [t]: a whole number of twentieths, an integer only as the bound 143,
    which it is up to 153, and [t] minus 201/20 above that, an integer
    and nineteen twentieths (it ends in .95). *)
Definition decreased_on_grid (t q : Q) : Prop :=
  JS.isInteger (20 * q) = true /\
  (JS.isInteger q = true <-> (t <= 153)%Q) /\
  ((t <= 153)%Q -> (q == COLD_TEMPERATURE)%Q) /\
  ((153 < t)%Q -> (q == t - (201 # 20))%Q) /\
  ((153 < t)%Q -> exists m : Z, (q == inject_Z m + (19 # 20))%Q).

(** * Properties *)

(** ** The loop of a control operation *)

Section Loop.
Context {W : Type} `{Axios W}.

Lemma returning_for_of {X A B} (f : A -> B) (body : X -> A -> Async W A)
    (body' : X -> B -> Async W B) :
  (forall x a env, returning f (body x a) env = body' x (f a) env) ->
  forall xs a env, returning f (for_of xs a body) env = for_of xs (f a) body' env.
Proof.
  intros Hbody xs. induction xs as [|x xs IH]; intros a env; [reflexivity|].
  specialize (Hbody x a env). cbn [for_of]. unfold returning, bind in *.
  destruct (body x a env) as [[a'|e] env1]; rewrite <- Hbody.
  - apply IH.
  - reflexivity.
Qed.

Lemma returning_registry {A B} (f : A -> B) (loop : list KeylightConfig -> Async W A) env :
  returning f (bind read_keyLights loop) env = returning f (loop (keyLights env)) env.
Proof. reflexivity. Qed.

(** Every operation is the loop of its [attempt]s over the registry. *)
Lemma run_loop (op : Operation) (env : Env W) :
  run op env = for_of (keyLights env) undefined (fun keyLight _ => attempt op keyLight) env.
Proof.
  destruct op; cbn [run];
    unfold toggle, increaseBrightness, decreaseBrightness,
           increaseTemperature, decreaseTemperature;
    rewrite returning_registry;
    match goal with
    | |- _ = for_of _ _ ?body' _ =>
        first [ apply (returning_for_of value_of_bool _ body')
              | apply (returning_for_of value_of_number _ body') ]
    end;
    intros k a env0; unfold returning, try_catch, bind, attempt, prop, ret, throw;
    destruct (getKeyLight k env0) as [[[state|]|e] env1]; try reflexivity;
    cbn; destruct (updateKeyLight k _ env1) as [[[]|e] env2]; reflexivity.
Qed.

Lemma loop_nil (op : Operation) (v : Value) (env : Env W) :
  for_of [] v (fun keyLight _ => attempt op keyLight) env = (Normal v, env).
Proof. reflexivity. Qed.

Lemma loop_cons (op : Operation) (k : KeylightConfig) rest (v : Value) (env : Env W) :
  for_of (k :: rest) v (fun keyLight _ => attempt op keyLight) env =
  match attempt op k env with
  | (Normal v', env') => for_of rest v' (fun keyLight _ => attempt op keyLight) env'
  | (Throw e, env') => (Throw e, env')
  end.
Proof. reflexivity. Qed.

End Loop.

(** ** The device client *)

Section Client.
Context {W : Type} `{Axios W}.

Lemma getKeyLight_unfold (k : KeylightConfig) (env : Env W) :
  getKeyLight k env =
  match axios_get (lights_url k) (network env) with
  | (Normal lights, w) => (Normal (head lights), after_request env (GET (lights_url k)) w)
  | (Throw _, w) =>
      (Throw (Error ("Failed to fetch Key Light state from " +:+ lights_url k)),
       after_request env (GET (lights_url k)) w)
  end.
Proof.
  unfold getKeyLight, try_catch, bind, send, on_network, ret, throw, after_request.
  cbn. destruct (axios_get (lights_url k) (network env)) as [[ls|e] w]; reflexivity.
Qed.

Lemma updateKeyLight_unfold (k : KeylightConfig) (options : Options) (env : Env W) :
  updateKeyLight k options env =
  match axios_put (lights_url k) [options] (network env) with
  | (Normal _, w) => (Normal tt, after_request env (PUT (lights_url k) [options]) w)
  | (Throw _, w) =>
      (Throw (Error ("Failed to update Key Light state at " +:+ lights_url k)),
       after_request env (PUT (lights_url k) [options]) w)
  end.
Proof.
  unfold updateKeyLight, try_catch, bind, send, on_network, ret, throw, after_request.
  cbn. destruct (axios_put (lights_url k) [options] (network env)) as [[[]|e] w]; reflexivity.
Qed.

Lemma getKeyLight_requests k (env : Env W) :
  requests (snd (getKeyLight k env)) = requests env ++ [GET (lights_url k)].
Proof.
  rewrite getKeyLight_unfold.
  destruct (axios_get (lights_url k) (network env)) as [[ls|e] w]; reflexivity.
Qed.

Lemma updateKeyLight_requests k options (env : Env W) :
  requests (snd (updateKeyLight k options env)) =
  requests env ++ [PUT (lights_url k) [options]].
Proof.
  rewrite updateKeyLight_unfold.
  destruct (axios_put (lights_url k) [options] (network env)) as [[[]|e] w]; reflexivity.
Qed.

Lemma getKeyLight_keyLights k (env : Env W) :
  keyLights (snd (getKeyLight k env)) = keyLights env.
Proof.
  rewrite getKeyLight_unfold.
  destruct (axios_get (lights_url k) (network env)) as [[ls|e] w]; reflexivity.
Qed.

Lemma getKeyLight_answers k (env env1 : Env W) state :
  getKeyLight k env = (Normal (Some state), env1) -> answers (lights_url k) state.
Proof.
  rewrite getKeyLight_unfold. intros Hget. exists (network env).
  destruct (axios_get (lights_url k) (network env)) as [[ls|e] w] eqn:Hanswer;
    [|discriminate].
  exists ls. split; [reflexivity|]. congruence.
Qed.

(** What one turn of the loop sends: the GET, and the PUT if a state came
    back. *)
Lemma attempt_requests (op : Operation) k (env : Env W) :
  requests (snd (attempt op k env)) = requests env ++ [GET (lights_url k)] \/
  exists state,
    answers (lights_url k) state /\
    requests (snd (attempt op k env)) =
    requests env ++ [GET (lights_url k); PUT (lights_url k) [pushed op state]].
Proof.
  unfold attempt. pose proof (getKeyLight_requests k env) as Hget.
  destruct (getKeyLight k env) as [[[state|]|e] env1] eqn:Hfetch; cbn in Hget;
    [|left; exact Hget..].
  right. exists state. split; [eapply getKeyLight_answers; eassumption|].
  pose proof (updateKeyLight_requests k (pushed op state) env1) as Hput.
  destruct (updateKeyLight k (pushed op state) env1) as [[[]|e] env2];
    cbn in Hput |- *; rewrite Hput, Hget, <- app_assoc; reflexivity.
Qed.

Lemma attempt_throws (op : Operation) k (env env' : Env W) e :
  attempt op k env = (Throw e, env') -> e = failure op k.
Proof.
  unfold attempt.
  destruct (getKeyLight k env) as [[[state|]|e1] env1]; try congruence.
  destruct (updateKeyLight k (pushed op state) env1) as [[[]|e2] env2]; congruence.
Qed.

End Client.

(** ** Control operations on any network *)

Section Control.
Context {W : Type} `{Axios W}.

(** C10. With an empty registry each of the five control operations
    completes normally, leaves the network and the list of requests as
    they were (no fetch, no push) and returns [undefined], the value its
    local variable was declared with. *)
Theorem empty_registry_returns_undefined (w : W) (sent : list Request) :
  let env := {| keyLights := []; network := w; requests := sent |} in
  toggle env = (Normal None, env) /\
  increaseBrightness env = (Normal None, env) /\
  decreaseBrightness env = (Normal None, env) /\
  increaseTemperature env = (Normal None, env) /\
  decreaseTemperature env = (Normal None, env) /\
  forall op, run op env = (Normal undefined, env).
Proof.
  cbn zeta. repeat split; try reflexivity. intros []; reflexivity.
Qed.

(** C3. When the fetch for the first endpoint of the registry fails, or
    its push does, the operation throws the error that names this endpoint
    and stops: the requests sent are the GET (and the PUT) for the first
    endpoint and none for the endpoints after it. *)
Theorem first_failure_aborts (op : Operation) (k : KeylightConfig)
    (rest : list KeylightConfig) (env : Env W) :
  keyLights env = k :: rest ->
  (forall e env1,
      getKeyLight k env = (Throw e, env1) ->
      run op env = (Throw (failure op k), env1) /\
      requests env1 = requests env ++ [GET (lights_url k)]) /\
  (forall state env1 e env2,
      getKeyLight k env = (Normal (Some state), env1) ->
      updateKeyLight k (pushed op state) env1 = (Throw e, env2) ->
      run op env = (Throw (failure op k), env2) /\
      requests env2 =
      requests env ++ [GET (lights_url k); PUT (lights_url k) [pushed op state]]).
Proof.
  intros Hregistry. split.
  - intros e env1 Hfetch. rewrite run_loop, Hregistry, loop_cons.
    unfold attempt. rewrite Hfetch. split; [reflexivity|].
    pose proof (getKeyLight_requests k env) as Hsent.
    rewrite Hfetch in Hsent. exact Hsent.
  - intros state env1 e env2 Hfetch Hpush. rewrite run_loop, Hregistry, loop_cons.
    unfold attempt. rewrite Hfetch, Hpush. split; [reflexivity|].
    pose proof (getKeyLight_requests k env) as Hsent.
    pose proof (updateKeyLight_requests k (pushed op state) env1) as Hsent'.
    rewrite Hfetch in Hsent. rewrite Hpush in Hsent'. cbn in Hsent, Hsent'.
    rewrite Hsent', Hsent, <- app_assoc. reflexivity.
Qed.

End Control.

(** ** What the operations push *)

Section Pushes.
Context {W : Type} `{Axios W}.

Lemma returning_snd {A B} (f : A -> B) (m : Async W A) (env : Env W) :
  snd (returning f m env) = snd (m env).
Proof. unfold returning. destruct (m env) as [[a|e] env']; reflexivity. Qed.

Lemma loop_pushes (op : Operation) (ks : list KeylightConfig) (v : Value) (env : Env W)
    (url : string) (body : list Options) :
  PUT url body ∈ requests (snd (for_of ks v (fun keyLight _ => attempt op keyLight) env)) ->
  PUT url body ∈ requests env \/
  exists k state,
    k ∈ ks /\ url = lights_url k /\ answers url state /\ body = [pushed op state].
Proof.
  revert v env. induction ks as [|k ks IH]; intros v env Hsent.
  - left. exact Hsent.
  - rewrite loop_cons in Hsent.
    assert (Hturn : PUT url body ∈ requests (snd (attempt op k env)) ->
                    PUT url body ∈ requests env \/
                    exists k0 state, k0 ∈ k :: ks /\ url = lights_url k0 /\
                      answers url state /\ body = [pushed op state]).
    { intros Hin. destruct (attempt_requests op k env) as [Hreq|[state [Hans Hreq]]];
        rewrite Hreq in Hin; apply elem_of_app in Hin as [Hin|Hin]; auto.
      - apply list_elem_of_singleton in Hin. discriminate.
      - apply elem_of_cons in Hin as [Hin|Hin]; [discriminate|].
        apply list_elem_of_singleton in Hin. injection Hin as -> ->.
        right. exists k, state. repeat split; [left|exact Hans]. }
    destruct (attempt op k env) as [[v'|e] env'] eqn:Hattempt.
    + apply IH in Hsent as [Hin|(k0 & state & Hk0 & Hrest)].
      * apply Hturn. exact Hin.
      * right. exists k0, state. split; [right; exact Hk0|exact Hrest].
    + apply Hturn. exact Hsent.
Qed.

(** Every PUT that an operation adds to the requests goes to an endpoint
    of the registry and carries what [pushed] makes of a state that this
    endpoint answered. *)
Lemma run_pushes (op : Operation) (env : Env W) (url : string) (body : list Options) :
  PUT url body ∈ requests (snd (run op env)) ->
  PUT url body ∈ requests env \/
  exists k state,
    k ∈ keyLights env /\ url = lights_url k /\ answers url state /\
    body = [pushed op state].
Proof. rewrite run_loop. apply loop_pushes. Qed.

End Pushes.

(** ** Clamping arithmetic *)

Lemma TEMPERATURE_STEP_value : (TEMPERATURE_STEP == 201 # 20)%Q.
Proof. reflexivity. Qed.

Lemma isInteger_iff (q : Q) :
  JS.isInteger q = true <-> exists n : Z, (q == inject_Z n)%Q.
Proof.
  unfold JS.isInteger. rewrite Pos.eqb_eq. split.
  - intros Hden. exists (Qnum (Qred q)). rewrite <- (Qred_correct q) at 1.
    destruct (Qred q) as [a b]. cbn in *. subst b. reflexivity.
  - intros [n Hn]. rewrite (Qred_complete _ _ Hn).
    rewrite Qred_identity; [reflexivity|]. apply Z.gcd_1_r.
Qed.

Lemma isInteger_false_iff (q : Q) :
  JS.isInteger q = false <-> ~ exists n : Z, (q == inject_Z n)%Q.
Proof.
  rewrite <- isInteger_iff. destruct (JS.isInteger q); split; congruence.
Qed.

(** An integer plus 201/20 is no integer, but twenty times it is one. *)
Lemma off_grid (n m : Z) (sign : Z) :
  sign = 1%Z \/ sign = (-1)%Z ->
  ~ (inject_Z m == inject_Z n + inject_Z sign * (201 # 20))%Q.
Proof.
  intros Hsign Heq.
  assert (Hscaled : (inject_Z (20 * m) == inject_Z (20 * n + sign * 201))%Q).
  { rewrite inject_Z_plus, !inject_Z_mult.
    change (inject_Z 20) with 20%Q. change (inject_Z 201) with 201%Q.
    revert Heq. generalize (inject_Z m) (inject_Z n) (inject_Z sign).
    intros x y z Heq. lra. }
  apply (proj1 (inject_Z_injective _ _)) in Hscaled. lia.
Qed.

Lemma min_cases (a b : Q) :
  ((a < b /\ JS.Math_min a b == a) \/ (b <= a /\ JS.Math_min a b == b))%Q.
Proof. apply Q.min_spec. Qed.

Lemma max_cases (a b : Q) :
  ((a < b /\ JS.Math_max a b == b) \/ (b <= a /\ JS.Math_max a b == a))%Q.
Proof. apply Q.max_spec. Qed.

(** ** Brightness and temperature adjustments *)

Section Adjustments.
Context {W : Type} `{Axios W}.

Lemma named_pushes {A} (f : A -> Value) (m : Async W A) (op : Operation) (env : Env W)
    (url : string) (body : list Options) :
  run op = returning f m ->
  PUT url body ∈ requests (snd (m env)) ->
  PUT url body ∈ requests env \/
  exists k state,
    k ∈ keyLights env /\ url = lights_url k /\ answers url state /\
    body = [pushed op state].
Proof.
  intros Hrun Hsent. apply run_pushes. rewrite Hrun, returning_snd. exact Hsent.
Qed.

(** C1, as the code has it. A brightness that [increaseBrightness] pushes
    is the fetched one plus 5, cut at 100: it never exceeds 100, it is not
    negative when the fetched one was not, and from 98 it is 100. A
    brightness that [decreaseBrightness] pushes is the fetched one minus 5,
    raised to 0: it is never negative, it does not exceed 100 when the
    fetched one did not, and from 3 it is 0. So a start in [0,100] gives a
    push in [0,100]. *)
Theorem brightness_pushes_clamped (env : Env W) (url : string) (body : list Options) :
  (PUT url body ∈ requests (snd (increaseBrightness env)) ->
   PUT url body ∈ requests env \/
   exists state q,
     answers url state /\ body = [only_brightness q] /\
     q = JS.Math_min (brightness state + 5) 100 /\
     (q <= 100 /\
      (0 <= brightness state -> 0 <= q) /\
      (brightness state == 98 -> q == 100))%Q) /\
  (PUT url body ∈ requests (snd (decreaseBrightness env)) ->
   PUT url body ∈ requests env \/
   exists state q,
     answers url state /\ body = [only_brightness q] /\
     q = JS.Math_max (brightness state - 5) 0 /\
     (0 <= q /\
      (brightness state <= 100 -> q <= 100) /\
      (brightness state == 3 -> q == 0))%Q).
Proof.
  split; intros Hsent.
  - apply (named_pushes value_of_number _ IncreaseBrightness env url body eq_refl) in Hsent
      as [Hold|(k & state & _ & _ & Hanswer & ->)]; [left; exact Hold|].
    right. exists state, (JS.Math_min (brightness state + 5) 100).
    split; [exact Hanswer|]. split; [reflexivity|]. split; [reflexivity|].
    destruct (min_cases (brightness state + 5) 100) as [[Hlt Hmin]|[Hle Hmin]];
      repeat split; intros; lra.
  - apply (named_pushes value_of_number _ DecreaseBrightness env url body eq_refl) in Hsent
      as [Hold|(k & state & _ & _ & Hanswer & ->)]; [left; exact Hold|].
    right. exists state, (JS.Math_max (brightness state - 5) 0).
    split; [exact Hanswer|]. split; [reflexivity|]. split; [reflexivity|].
    destruct (max_cases (brightness state - 5) 0) as [[Hlt Hmax]|[Hle Hmax]];
      repeat split; intros; lra.
Qed.

(** C2, as the code has it. A temperature that [increaseTemperature]
    pushes is the fetched one plus the step, cut at 344: it never exceeds
    344, it is at least 143 when the fetched one was, and from 340 it is
    344. A temperature that [decreaseTemperature] pushes is the fetched one
    minus the step, raised to 143: it is never below 143 and does not
    exceed 344 when the fetched one did not. So a start in [143,344] gives
    a push in [143,344]. *)
Theorem temperature_pushes_clamped (env : Env W) (url : string) (body : list Options) :
  (PUT url body ∈ requests (snd (increaseTemperature env)) ->
   PUT url body ∈ requests env \/
   exists state q,
     answers url state /\ body = [only_temperature q] /\
     q = JS.Math_min (temperature state + TEMPERATURE_STEP) WARM_TEMPERATURE /\
     (q <= WARM_TEMPERATURE /\
      (COLD_TEMPERATURE <= temperature state -> COLD_TEMPERATURE <= q) /\
      (temperature state == 340 -> q == 344))%Q) /\
  (PUT url body ∈ requests (snd (decreaseTemperature env)) ->
   PUT url body ∈ requests env \/
   exists state q,
     answers url state /\ body = [only_temperature q] /\
     q = JS.Math_max (temperature state - TEMPERATURE_STEP) COLD_TEMPERATURE /\
     (COLD_TEMPERATURE <= q /\
      (temperature state <= WARM_TEMPERATURE -> q <= WARM_TEMPERATURE))%Q).
Proof.
  pose proof TEMPERATURE_STEP_value as Hstep.
  split; intros Hsent.
  - apply (named_pushes value_of_number _ IncreaseTemperature env url body eq_refl) in Hsent
      as [Hold|(k & state & _ & _ & Hanswer & ->)]; [left; exact Hold|].
    right.
    exists state, (JS.Math_min (temperature state + TEMPERATURE_STEP) WARM_TEMPERATURE).
    split; [exact Hanswer|]. split; [reflexivity|]. split; [reflexivity|].
    destruct (min_cases (temperature state + TEMPERATURE_STEP) WARM_TEMPERATURE)
      as [[Hlt Hmin]|[Hle Hmin]];
      unfold WARM_TEMPERATURE, COLD_TEMPERATURE in *; repeat split; intros; lra.
  - apply (named_pushes value_of_number _ DecreaseTemperature env url body eq_refl) in Hsent
      as [Hold|(k & state & _ & _ & Hanswer & ->)]; [left; exact Hold|].
    right.
    exists state, (JS.Math_max (temperature state - TEMPERATURE_STEP) COLD_TEMPERATURE).
    split; [exact Hanswer|]. split; [reflexivity|]. split; [reflexivity|].
    destruct (max_cases (temperature state - TEMPERATURE_STEP) COLD_TEMPERATURE)
      as [[Hlt Hmax]|[Hle Hmax]];
      unfold WARM_TEMPERATURE, COLD_TEMPERATURE in *; repeat split; intros; lra.
Qed.

End Adjustments.

(** ** One turn of a loop, wherever it is in the registry *)

Section Turns.
Context {W : Type} `{Axios W}.

Lemma with_keyLights_same (env : Env W) : with_keyLights (keyLights env) env = env.
Proof. destruct env; reflexivity. Qed.

Lemma with_keyLights_twice (kls kls' : list KeylightConfig) (env : Env W) :
  with_keyLights kls (with_keyLights kls' env) = with_keyLights kls env.
Proof. reflexivity. Qed.

(** A turn does not look at the registry. *)
Lemma attempt_with_keyLights (op : Operation) (k : KeylightConfig)
    (kls : list KeylightConfig) (env : Env W) :
  attempt op k (with_keyLights kls env) =
  (fst (attempt op k env), with_keyLights kls (snd (attempt op k env))).
Proof.
  unfold attempt. rewrite !getKeyLight_unfold. cbn [network with_keyLights].
  destruct (axios_get (lights_url k) (network env)) as [[[|state ls]|e] w];
    cbn [head]; try reflexivity.
  rewrite !updateKeyLight_unfold. cbn [network after_request with_keyLights].
  destruct (axios_put (lights_url k) [pushed op state] w) as [[[]|e] w']; reflexivity.
Qed.

Lemma loop_with_keyLights (op : Operation) (ks kls : list KeylightConfig) (v : Value)
    (env : Env W) :
  for_of ks v (fun keyLight _ => attempt op keyLight) (with_keyLights kls env) =
  (fst (for_of ks v (fun keyLight _ => attempt op keyLight) env),
   with_keyLights kls (snd (for_of ks v (fun keyLight _ => attempt op keyLight) env))).
Proof.
  revert v env. induction ks as [|k ks IH]; intros v env; [reflexivity|].
  rewrite !loop_cons, attempt_with_keyLights.
  destruct (attempt op k env) as [[v'|e] env']; cbn [fst snd]; [apply IH|reflexivity].
Qed.

Lemma loop_app (op : Operation) (ks ks' : list KeylightConfig) (v : Value) (env : Env W) :
  for_of (ks ++ ks') v (fun keyLight _ => attempt op keyLight) env =
  match for_of ks v (fun keyLight _ => attempt op keyLight) env with
  | (Normal v', env') => for_of ks' v' (fun keyLight _ => attempt op keyLight) env'
  | (Throw e, env') => (Throw e, env')
  end.
Proof.
  revert v env. induction ks as [|k ks IH]; intros v env; [reflexivity|].
  rewrite <- app_comm_cons, !loop_cons.
  destruct (attempt op k env) as [[v'|e] env']; [apply IH|reflexivity].
Qed.

(** A loop only adds to the requests. *)
Lemma loop_requests_extend (op : Operation) (ks : list KeylightConfig) (v : Value)
    (env : Env W) :
  exists more,
    requests (snd (for_of ks v (fun keyLight _ => attempt op keyLight) env)) =
    requests env ++ more.
Proof.
  revert v env. induction ks as [|k ks IH]; intros v env.
  - exists []. cbn. rewrite app_nil_r. reflexivity.
  - rewrite loop_cons.
    assert (Hturn : exists sent, requests (snd (attempt op k env)) = requests env ++ sent).
    { destruct (attempt_requests op k env) as [Hreq|[state [_ Hreq]]];
        rewrite Hreq; eexists; reflexivity. }
    destruct Hturn as [sent Hsent].
    destruct (attempt op k env) as [[v'|e] env']; cbn [snd] in Hsent.
    + destruct (IH v' env') as [more Hmore]. exists (sent ++ more).
      rewrite Hmore, Hsent, app_assoc. reflexivity.
    + exists sent. exact Hsent.
Qed.

(** When the endpoints before [k] went through and [k] answers [state],
    the next request is the PUT of what the operation makes of [state]. *)
Lemma turn_sends (op : Operation) (env env_k env1 : Env W)
    (before after : list KeylightConfig) (k : KeylightConfig) (v : Value) (state : Light) :
  keyLights env = before ++ k :: after ->
  run op (with_keyLights before env) = (Normal v, env_k) ->
  getKeyLight k env_k = (Normal (Some state), env1) ->
  exists more,
    requests (snd (run op env)) =
    requests env1 ++ PUT (lights_url k) [pushed op state] :: more.
Proof.
  intros Hregistry Hbefore Hfetch.
  rewrite run_loop in Hbefore |- *. cbn [keyLights with_keyLights] in Hbefore.
  rewrite loop_with_keyLights in Hbefore.
  rewrite Hregistry, loop_app.
  destruct (for_of before undefined (fun keyLight _ => attempt op keyLight) env)
    as [[v'|e] envb]; cbn [fst snd] in Hbefore; [|discriminate].
  injection Hbefore as -> <-. rewrite loop_cons.
  replace (attempt op k envb)
    with (attempt op k (with_keyLights (keyLights envb) (with_keyLights before envb)))
    by (destruct envb; reflexivity).
  assert (Hturn : attempt op k (with_keyLights before envb) =
                  match updateKeyLight k (pushed op state) env1 with
                  | (Normal _, env2) => (Normal (computed op state), env2)
                  | (Throw _, env2) => (Throw (failure op k), env2)
                  end).
  { unfold attempt. rewrite Hfetch. reflexivity. }
  rewrite attempt_with_keyLights, Hturn.
  pose proof (updateKeyLight_requests k (pushed op state) env1) as Hput.
  destruct (updateKeyLight k (pushed op state) env1) as [[[]|e] env2];
    cbn [fst snd] in Hput |- *.
  - destruct (loop_requests_extend op after (computed op state)
                (with_keyLights (keyLights envb) env2)) as [more Hmore].
    exists more. rewrite Hmore. cbn [requests with_keyLights].
    rewrite Hput, <- app_assoc. reflexivity.
  - exists []. cbn [requests with_keyLights]. exact Hput.
Qed.

Lemma named_completes {A} (f : A -> Value) (m : Async W A) (env env' : Env W) (a : A) :
  m env = (Normal a, env') -> returning f m env = (Normal (f a), env').
Proof. intros Hm. unfold returning. rewrite Hm. reflexivity. Qed.

End Turns.

Section Grid.
Context {W : Type} `{Axios W}.

Lemma integer_above (n : Z) (bound : Z) :
  (inject_Z bound - 1 < inject_Z n -> inject_Z bound <= inject_Z n)%Q.
Proof.
  intros Hlt. rewrite <- Zle_Qle.
  assert (Hz : (inject_Z (bound - 1) < inject_Z n)%Q).
  { unfold Z.sub. rewrite inject_Z_plus. exact Hlt. }
  rewrite <- Zlt_Qlt in Hz. lia.
Qed.

Lemma integer_below (n : Z) (bound : Z) :
  (inject_Z n < inject_Z bound + 1 -> inject_Z n <= inject_Z bound)%Q.
Proof.
  intros Hlt. rewrite <- Zle_Qle.
  assert (Hz : (inject_Z n < inject_Z (bound + 1))%Q).
  { rewrite inject_Z_plus. exact Hlt. }
  rewrite <- Zlt_Qlt in Hz. lia.
Qed.

Lemma twenty_times_integer (q : Q) (n : Z) (sign : Z) :
  (q == inject_Z n + inject_Z sign * (201 # 20))%Q ->
  JS.isInteger (20 * q) = true.
Proof.
  intros Hq. apply isInteger_iff. exists (20 * n + sign * 201)%Z.
  rewrite inject_Z_plus, !inject_Z_mult.
  change (inject_Z 20) with 20%Q. change (inject_Z 201) with 201%Q.
  revert Hq. generalize (inject_Z n) (inject_Z sign). intros x y Hq. lra.
Qed.

Lemma increase_on_grid (t : Q) :
  JS.isInteger t = true ->
  (COLD_TEMPERATURE <= t <= WARM_TEMPERATURE)%Q ->
  increased_on_grid t (JS.Math_min (t + TEMPERATURE_STEP) WARM_TEMPERATURE).
Proof.
  pose proof TEMPERATURE_STEP_value as Hstep.
  intros Hint [Hcold Hwarm]. apply isInteger_iff in Hint as [n Hn].
  unfold increased_on_grid, WARM_TEMPERATURE, COLD_TEMPERATURE in *.
  destruct (min_cases (t + TEMPERATURE_STEP) 344) as [[Hlt Hmin]|[Hle Hmin]].
  - assert (Hq : (JS.Math_min (t + TEMPERATURE_STEP) 344 ==
                  inject_Z n + inject_Z 1 * (201 # 20))%Q).
    { change (inject_Z 1) with 1%Q. lra. }
    assert (Hbelow : (t < 334)%Q).
    { destruct (Qlt_le_dec t 334) as [Hlow|Hhigh]; [exact Hlow|lra]. }
    split; [exact (twenty_times_integer _ n 1 Hq)|].
    split; [split|split; [|split]].
    + intros Hwhole. apply isInteger_iff in Hwhole as [m Hm]. exfalso.
      apply (off_grid n m 1); [left; reflexivity|]. rewrite <- Hm. exact Hq.
    + intros Hhigh. lra.
    + intros Hhigh. lra.
    + intros _. lra.
    + intros _. exists (n + 10)%Z. rewrite inject_Z_plus.
      change (inject_Z 10) with 10%Q. lra.
  - assert (Hhigh : (334 <= t)%Q).
    { rewrite Hn. apply (integer_above n 334). change (inject_Z 334) with 334%Q. lra. }
    split.
    { apply isInteger_iff. exists 6880%Z. change (inject_Z 6880) with 6880%Q. lra. }
    split; [split|split; [|split]].
    + intros _. exact Hhigh.
    + intros _. apply isInteger_iff. exists 344%Z. exact Hmin.
    + intros _. exact Hmin.
    + intros Hlow. lra.
    + intros Hlow. lra.
Qed.

Lemma decrease_on_grid (t : Q) :
  JS.isInteger t = true ->
  (COLD_TEMPERATURE <= t <= WARM_TEMPERATURE)%Q ->
  decreased_on_grid t (JS.Math_max (t - TEMPERATURE_STEP) COLD_TEMPERATURE).
Proof.
  pose proof TEMPERATURE_STEP_value as Hstep.
  intros Hint [Hcold Hwarm]. apply isInteger_iff in Hint as [n Hn].
  unfold decreased_on_grid, WARM_TEMPERATURE, COLD_TEMPERATURE in *.
  destruct (max_cases (t - TEMPERATURE_STEP) 143) as [[Hlt Hmax]|[Hle Hmax]].
  - assert (Hlow : (t <= 153)%Q).
    { rewrite Hn. apply (integer_below n 153). change (inject_Z 153) with 153%Q. lra. }
    split.
    { apply isInteger_iff. exists 2860%Z. change (inject_Z 2860) with 2860%Q. lra. }
    split; [split|split; [|split]].
    + intros _. exact Hlow.
    + intros _. apply isInteger_iff. exists 143%Z. exact Hmax.
    + intros _. exact Hmax.
    + intros Hhigh. lra.
    + intros Hhigh. lra.
  - assert (Hq : (JS.Math_max (t - TEMPERATURE_STEP) 143 ==
                  inject_Z n + inject_Z (-1) * (201 # 20))%Q).
    { change (inject_Z (-1)) with (-1)%Q. lra. }
    destruct (Qlt_le_dec 153 t) as [Hhigh|Hlow]; [|exfalso; lra].
    split; [exact (twenty_times_integer _ n (-1) Hq)|].
    split; [split|split; [|split]].
    + intros Hwhole. apply isInteger_iff in Hwhole as [m Hm]. exfalso.
      apply (off_grid n m (-1)); [right; reflexivity|]. rewrite <- Hm. exact Hq.
    + intros Hlow. lra.
    + intros Hlow. lra.
    + intros _. lra.
    + intros _. exists (n + - 11)%Z. rewrite inject_Z_plus.
      change (inject_Z (- 11)) with (- 11)%Q. lra.
Qed.

(** C9, as the code has it. Take any turn of [increaseTemperature] or
    [decreaseTemperature]: the endpoint [k] of the registry, reached after
    the operation went through the endpoints before it, answers a state
    whose temperature is an integer in [143,344]. Then the next request is
    the PUT to [k] of the temperature computed from that state: the
    fetched one plus or minus 201/20, or the bound 344 or 143 when that
    sum passes it. Twenty times the pushed value is an integer; the pushed
    value itself is an integer exactly when it is the bound: from 334 on
    when increasing, up to 153 when decreasing; otherwise it is an integer
    and one twentieth (.05) when increasing, an integer and nineteen
    twentieths (.95) when decreasing. And every PUT that these
    operations send carries the temperature so computed from a state that
    its endpoint answered. *)
Theorem temperature_pushes_on_twentieths (env : Env W) (url : string)
    (body : list Options) :
  (forall before k after env_k env1 state,
      keyLights env = before ++ k :: after ->
      getKeyLight k env_k = (Normal (Some state), env1) ->
      JS.isInteger (temperature state) = true ->
      (COLD_TEMPERATURE <= temperature state <= WARM_TEMPERATURE)%Q ->
      (forall v,
          increaseTemperature (with_keyLights before env) = (Normal v, env_k) ->
          exists q more,
            requests (snd (increaseTemperature env)) =
              requests env1 ++ PUT (lights_url k) [only_temperature q] :: more /\
            q = JS.Math_min (temperature state + TEMPERATURE_STEP) WARM_TEMPERATURE /\
            increased_on_grid (temperature state) q) /\
      (forall v,
          decreaseTemperature (with_keyLights before env) = (Normal v, env_k) ->
          exists q more,
            requests (snd (decreaseTemperature env)) =
              requests env1 ++ PUT (lights_url k) [only_temperature q] :: more /\
            q = JS.Math_max (temperature state - TEMPERATURE_STEP) COLD_TEMPERATURE /\
            decreased_on_grid (temperature state) q)) /\
  (PUT url body ∈ requests (snd (increaseTemperature env)) ->
   PUT url body ∈ requests env \/
   exists state q,
     answers url state /\ body = [only_temperature q] /\
     q = JS.Math_min (temperature state + TEMPERATURE_STEP) WARM_TEMPERATURE /\
     (JS.isInteger (temperature state) = true ->
      (COLD_TEMPERATURE <= temperature state <= WARM_TEMPERATURE)%Q ->
      increased_on_grid (temperature state) q)) /\
  (PUT url body ∈ requests (snd (decreaseTemperature env)) ->
   PUT url body ∈ requests env \/
   exists state q,
     answers url state /\ body = [only_temperature q] /\
     q = JS.Math_max (temperature state - TEMPERATURE_STEP) COLD_TEMPERATURE /\
     (JS.isInteger (temperature state) = true ->
      (COLD_TEMPERATURE <= temperature state <= WARM_TEMPERATURE)%Q ->
      decreased_on_grid (temperature state) q)).
Proof.
  split; [|split].
  - intros before k after env_k env1 state Hregistry Hfetch Hint Hrange. split.
    + intros v Hbefore.
      apply (named_completes value_of_number) in Hbefore.
      destruct (turn_sends IncreaseTemperature env env_k env1 before after k _ state
                  Hregistry Hbefore Hfetch) as [more Hsent].
      cbn [run] in Hsent. rewrite returning_snd in Hsent.
      eexists _, more. split; [exact Hsent|]. split; [reflexivity|].
      apply increase_on_grid; assumption.
    + intros v Hbefore.
      apply (named_completes value_of_number) in Hbefore.
      destruct (turn_sends DecreaseTemperature env env_k env1 before after k _ state
                  Hregistry Hbefore Hfetch) as [more Hsent].
      cbn [run] in Hsent. rewrite returning_snd in Hsent.
      eexists _, more. split; [exact Hsent|]. split; [reflexivity|].
      apply decrease_on_grid; assumption.
  - intros Hsent.
    apply (named_pushes value_of_number _ IncreaseTemperature env url body eq_refl) in Hsent
      as [Hold|(k & state & _ & _ & Hanswer & ->)]; [left; exact Hold|].
    right.
    exists state, (JS.Math_min (temperature state + TEMPERATURE_STEP) WARM_TEMPERATURE).
    split; [exact Hanswer|]. split; [reflexivity|]. split; [reflexivity|].
    intros Hint Hrange. apply (increase_on_grid _ Hint Hrange).
  - intros Hsent.
    apply (named_pushes value_of_number _ DecreaseTemperature env url body eq_refl) in Hsent
      as [Hold|(k & state & _ & _ & Hanswer & ->)]; [left; exact Hold|].
    right.
    exists state, (JS.Math_max (temperature state - TEMPERATURE_STEP) COLD_TEMPERATURE).
    split; [exact Hanswer|]. split; [reflexivity|]. split; [reflexivity|].
    intros Hint Hrange. apply (decrease_on_grid _ Hint Hrange).
Qed.

End Grid.

(** ** The operations on the sample installations *)

Lemma first_failure_aborts_witness :
  let env := start [desk; shelf] (alone shelf (light true 40 200) true) in
  (run Toggle env =
     (Throw (Error "Failed toggling Key Light at 192.168.1.20"),
      snd (getKeyLight desk env)) /\
   requests (snd (getKeyLight desk env)) = requests env ++ [GET (lights_url desk)]).
Proof.
  cbv zeta.
  refine (proj1 (first_failure_aborts Toggle desk [shelf]
                   (start [desk; shelf] (alone shelf (light true 40 200) true)) eq_refl)
            (Error ("Failed to fetch Key Light state from " +:+ lights_url desk)) _ _).
  vm_compute. reflexivity.
Defined.

Lemma sent_by (m : Async (gmap string Device) (option Q)) env (r1 r2 : Request) :
  requests (snd (m env)) = [r1; r2] -> r2 ∈ requests (snd (m env)).
Proof. intros ->. apply list_elem_of_further, list_elem_of_here. Qed.

Lemma brightness_pushes_clamped_witness :
  let url := lights_url desk in
  let env := start [desk] (alone desk (light true 98 200) true) in
  PUT url [only_brightness 100] ∈ requests env \/
  exists state q,
    answers url state /\ [only_brightness 100] = [only_brightness q] /\
    q = JS.Math_min (brightness state + 5) 100 /\
    (q <= 100 /\ (0 <= brightness state -> 0 <= q) /\
     (brightness state == 98 -> q == 100))%Q.
Proof.
  cbv zeta.
  apply (proj1 (brightness_pushes_clamped
                  (start [desk] (alone desk (light true 98 200) true))
                  (lights_url desk) [only_brightness 100])).
  apply (sent_by _ _ (GET (lights_url desk))). vm_compute. reflexivity.
Defined.

(** C1 as stated fails: from a brightness of -50, [increaseBrightness]
    pushes -45, which is below the domain. *)
Lemma increaseBrightness_pushes_negative :
  ~ (forall (lan : gmap string Device) (kls : list KeylightConfig) (url : string) (q : Q),
        PUT url [only_brightness q] ∈ requests (snd (increaseBrightness (start kls lan))) ->
        (0 <= q /\ q <= 100)%Q).
Proof.
  intros Hclaim.
  destruct (Hclaim (alone desk (light true (-50) 200) true) [desk] (lights_url desk) (-45)%Q)
    as [Hlow _].
  - apply (sent_by _ _ (GET (lights_url desk))). vm_compute. reflexivity.
  - lra.
Qed.

Lemma temperature_pushes_clamped_witness :
  let url := lights_url desk in
  let env := start [desk] (alone desk (light true 50 340) true) in
  PUT url [only_temperature 344] ∈ requests env \/
  exists state q,
    answers url state /\ [only_temperature 344] = [only_temperature q] /\
    q = JS.Math_min (temperature state + TEMPERATURE_STEP) WARM_TEMPERATURE /\
    (q <= WARM_TEMPERATURE /\
     (COLD_TEMPERATURE <= temperature state -> COLD_TEMPERATURE <= q) /\
     (temperature state == 340 -> q == 344))%Q.
Proof.
  cbv zeta.
  apply (proj1 (temperature_pushes_clamped
                  (start [desk] (alone desk (light true 50 340) true))
                  (lights_url desk) [only_temperature 344])).
  apply (sent_by _ _ (GET (lights_url desk))). vm_compute. reflexivity.
Defined.

(** C2 as stated fails: from a temperature of 100, [increaseTemperature]
    pushes 110.05, which is below 143. *)
Lemma increaseTemperature_pushes_below_cold :
  ~ (forall (lan : gmap string Device) (kls : list KeylightConfig) (url : string) (q : Q),
        PUT url [only_temperature q] ∈ requests (snd (increaseTemperature (start kls lan))) ->
        (143 <= q /\ q <= 344)%Q).
Proof.
  intros Hclaim.
  destruct (Hclaim (alone desk (light true 50 100) true) [desk] (lights_url desk) (2201 # 20))
    as [Hlow _].
  - apply (sent_by _ _ (GET (lights_url desk))). vm_compute. reflexivity.
  - lra.
Qed.

Lemma temperature_pushes_on_twentieths_witness :
  let env := start [desk] (alone desk (light true 50 200) true) in
  exists q more,
    requests (snd (increaseTemperature env)) =
      [GET (lights_url desk)] ++ PUT (lights_url desk) [only_temperature q] :: more /\
    q = JS.Math_min (temperature (light true 50 200) + TEMPERATURE_STEP) WARM_TEMPERATURE /\
    increased_on_grid (temperature (light true 50 200)) q.
Proof.
  cbv zeta.
  refine (proj1 (proj1 (temperature_pushes_on_twentieths
                   (start [desk] (alone desk (light true 50 200) true))
                   (lights_url desk) [])
                 [] desk []
                 (with_keyLights [] (start [desk] (alone desk (light true 50 200) true)))
                 (after_request
                    (with_keyLights [] (start [desk] (alone desk (light true 50 200) true)))
                    (GET (lights_url desk)) (alone desk (light true 50 200) true))
                 (light true 50 200) _ _ _ _) None _).
  - reflexivity.
  - vm_compute. reflexivity.
  - reflexivity.
  - unfold COLD_TEMPERATURE, WARM_TEMPERATURE. cbn. split; lra.
  - reflexivity.
Defined.

(** C9 as stated fails: from the integer temperature 200,
    [increaseTemperature] pushes 210.05. *)
Lemma increaseTemperature_pushes_fraction :
  ~ (forall (lan : gmap string Device) (kls : list KeylightConfig) (url : string) (q : Q),
        (forall u d l, lan !! u = Some d -> l ∈ lights d ->
                       JS.isInteger (temperature l) = true /\
                       (143 <= temperature l <= 344)%Q) ->
        PUT url [only_temperature q] ∈ requests (snd (increaseTemperature (start kls lan))) ->
        JS.isInteger q = true).
Proof.
  intros Hclaim.
  specialize (Hclaim (alone desk (light true 50 200) true) [desk] (lights_url desk)
                (4201 # 20)).
  assert (Hwhole : JS.isInteger (4201 # 20) = false) by reflexivity.
  rewrite Hclaim in Hwhole; [discriminate| |].
  - intros u d l Hlookup Hl. unfold alone in Hlookup.
    apply lookup_singleton_Some in Hlookup as [_ <-]. cbn in Hl.
    apply list_elem_of_singleton in Hl as ->. cbn. split; [reflexivity|lra].
  - apply (sent_by _ _ (GET (lights_url desk))). vm_compute. reflexivity.
Qed.

(** ** Errors of the control operations *)

Section Errors.
Context {W : Type} `{Axios W}.

Lemma attempt_keyLights (op : Operation) k (env : Env W) :
  keyLights (snd (attempt op k env)) = keyLights env.
Proof.
  unfold attempt. rewrite getKeyLight_unfold.
  destruct (axios_get (lights_url k) (network env)) as [[[|state ls]|e] w]; cbn;
    try reflexivity.
  rewrite updateKeyLight_unfold. cbn.
  destruct (axios_put _ _ w) as [[[]|e] w']; reflexivity.
Qed.

Lemma loop_keyLights (op : Operation) ks v (env : Env W) :
  keyLights (snd (for_of ks v (fun keyLight _ => attempt op keyLight) env)) = keyLights env.
Proof.
  revert v env. induction ks as [|k ks IH]; intros v env; [reflexivity|].
  rewrite loop_cons. pose proof (attempt_keyLights op k env) as Hstep.
  destruct (attempt op k env) as [[v'|e] env']; cbn in Hstep; [|exact Hstep].
  rewrite IH. exact Hstep.
Qed.

Lemma attempt_last_request (op : Operation) k (env : Env W) :
  exists r, last (requests (snd (attempt op k env))) = Some r /\
            target r = Some (lights_url k).
Proof.
  destruct (attempt_requests op k env) as [Hreq|[state [_ Hreq]]]; rewrite Hreq.
  - exists (GET (lights_url k)). split; [apply last_snoc|reflexivity].
  - exists (PUT (lights_url k) [pushed op state]).
    split; [|reflexivity].
    change [GET (lights_url k); PUT (lights_url k) [pushed op state]]
      with ([GET (lights_url k)] ++ [PUT (lights_url k) [pushed op state]]).
    rewrite app_assoc. apply last_snoc.
Qed.

Lemma loop_throws (op : Operation) ks v (env env' : Env W) e :
  for_of ks v (fun keyLight _ => attempt op keyLight) env = (Throw e, env') ->
  exists before k after,
    ks = before ++ k :: after /\ e = failure op k /\
    exists r, last (requests env') = Some r /\ target r = Some (lights_url k).
Proof.
  revert v env. induction ks as [|k ks IH]; intros v env Hloop; [discriminate|].
  rewrite loop_cons in Hloop.
  pose proof (attempt_last_request op k env) as Hlast.
  destruct (attempt op k env) as [[v'|e0] env0] eqn:Hattempt.
  - apply IH in Hloop as (before & k' & after & -> & He & Hr).
    exists (k :: before), k', after. repeat split; assumption.
  - injection Hloop as <- <-. exists [], k, ks.
    split; [reflexivity|]. split; [eapply attempt_throws; eassumption|exact Hlast].
Qed.

(** C8, as the code has it. The error of an operation that aborts is the
    operation's own [Error]: its message is the text of the operation
    followed by the [ip] of an endpoint of the registry, the one the last
    request was sent to. The error raised by [getKeyLight] or
    [updateKeyLight], which tells the phase, is dropped by the [catch]. *)
Theorem aborted_operation_names_host (op : Operation) (env env' : Env W) (e : Exn) :
  run op env = (Throw e, env') ->
  exists before k after,
    keyLights env = before ++ k :: after /\
    e = failure op k /\
    exists r, last (requests env') = Some r /\ target r = Some (lights_url k).
Proof. rewrite run_loop. apply loop_throws. Qed.

End Errors.

Lemma aborted_operation_names_host_witness :
  exists before k after,
    [desk; shelf] = before ++ k :: after /\
    Error "Failed decreasing brightness for 192.168.1.21" = failure DecreaseBrightness k /\
    exists r,
      last (requests (snd (run DecreaseBrightness
                             (start [desk; shelf] (alone desk (light true 40 200) true)))))
      = Some r /\
      target r = Some (lights_url k).
Proof.
  apply (aborted_operation_names_host DecreaseBrightness
           (start [desk; shelf] (alone desk (light true 40 200) true))).
  vm_compute. reflexivity.
Defined.

(** C8 as stated fails: no reading of the error tells the phase. On a
    network where nobody answers the fetch fails, on a device that refuses
    writes the push fails, and [toggle] throws the same error both times. *)
Lemma error_does_not_tell_phase :
  ~ exists phase_of : Exn -> Phase,
      forall (lan : gmap string Device) (k : KeylightConfig) (e : Exn),
        fst (toggle (start [k] lan)) = Throw e ->
        ((exists e1, fst (getKeyLight k (start [k] lan)) = Throw e1) ->
         phase_of e = Fetch) /\
        ((exists state e2,
             fst (getKeyLight k (start [k] lan)) = Normal (Some state) /\
             fst (updateKeyLight k (only_on (negb (on state)))
                    (snd (getKeyLight k (start [k] lan)))) = Throw e2) ->
         phase_of e = Push).
Proof.
  intros [phase_of Hclaim].
  pose (e := Error "Failed toggling Key Light at 192.168.1.20").
  assert (Hfetch : phase_of e = Fetch).
  { apply (Hclaim nobody desk e); [vm_compute; reflexivity|].
    eexists. vm_compute. reflexivity. }
  assert (Hpush : phase_of e = Push).
  { apply (Hclaim (alone desk (light true 40 200) false) desk e); [vm_compute; reflexivity|].
    exists (light true 40 200). eexists. split; vm_compute; reflexivity. }
  congruence.
Qed.

(** ** [toggle] on a network of devices *)

Lemma switched_twice (d : Device) : switched (switched d) = d.
Proof.
  destruct d as [[|[p b t] ls] w]; [reflexivity|].
  unfold switched, written, merge. cbn. rewrite negb_involutive. reflexivity.
Qed.

Lemma switch_twice (url : string) (lan : gmap string Device) :
  switch url (switch url lan) = lan.
Proof.
  unfold switch. apply map_eq. intros u.
  destruct (decide (url = u)) as [->|Hne].
  - rewrite !lookup_alter_eq.
    destruct (lan !! u) as [d|]; [|reflexivity]. cbn. rewrite switched_twice. reflexivity.
  - rewrite !lookup_alter_ne by exact Hne. reflexivity.
Qed.

Lemma switch_comm (u v : string) (lan : gmap string Device) :
  switch u (switch v lan) = switch v (switch u lan).
Proof.
  unfold switch. apply map_eq. intros x.
  destruct (decide (u = x)) as [->|Hu], (decide (v = x)) as [->|Hv];
    repeat (rewrite lookup_alter_eq || rewrite lookup_alter_ne by assumption);
    reflexivity.
Qed.

Lemma responsive_switch (url : string) (lan : gmap string Device) k :
  responsive (switch url lan) k = responsive lan k.
Proof.
  unfold responsive, switch. rewrite lookup_alter.
  case_decide as Hurl; [|reflexivity]. rewrite Hurl.
  destruct (lan !! lights_url k) as [[[|l ls] w]|]; reflexivity.
Qed.

Lemma toggled_switch (kls : list KeylightConfig) (url : string) (lan : gmap string Device) :
  toggled kls (switch url lan) = switch url (toggled kls lan).
Proof.
  revert lan. induction kls as [|k kls IH]; intros lan; [reflexivity|].
  cbn [toggled]. rewrite responsive_switch.
  destruct (responsive lan k); [|reflexivity].
  rewrite switch_comm. apply IH.
Qed.

Lemma responsive_toggled (kls : list KeylightConfig) (lan : gmap string Device) k :
  responsive (toggled kls lan) k = responsive lan k.
Proof.
  revert lan. induction kls as [|k0 kls IH]; intros lan; [reflexivity|].
  cbn [toggled]. destruct (responsive lan k0); [|reflexivity].
  rewrite IH. apply responsive_switch.
Qed.

Lemma toggled_twice (kls : list KeylightConfig) (lan : gmap string Device) :
  toggled kls (toggled kls lan) = lan.
Proof.
  revert lan. induction kls as [|k kls IH]; intros lan; [reflexivity|].
  cbn [toggled]. destruct (responsive lan k) eqn:Hk.
  - rewrite toggled_switch. cbn [toggled].
    rewrite responsive_switch, responsive_toggled, Hk.
    rewrite switch_twice. apply IH.
  - cbn [toggled]. rewrite Hk. reflexivity.
Qed.

(** One turn of the loop of [toggle] switches a responsive device and
    fails on any other, leaving the network as it was. *)
Lemma attempt_toggle_network (k : KeylightConfig) (env : Env (gmap string Device)) :
  if responsive (network env) k then
    exists v env', attempt Toggle k env = (Normal v, env') /\
                   network env' = switch (lights_url k) (network env)
  else
    exists e env', attempt Toggle k env = (Throw e, env') /\
                   network env' = network env.
Proof.
  unfold attempt, responsive. rewrite getKeyLight_unfold.
  cbn [axios_get lan_axios]. unfold lan_get.
  destruct (network env !! lights_url k) as [[[|l ls] w]|] eqn:Hdevice;
    cbn; try (eexists _, _; split; reflexivity).
  rewrite updateKeyLight_unfold. cbn [axios_put lan_axios network after_request].
  unfold lan_put. rewrite Hdevice. cbn [writable].
  destruct w; cbn; eexists _, _; (split; [reflexivity|]); [|reflexivity].
  cbn. unfold switch. apply map_eq. intros u.
  rewrite lookup_insert, lookup_alter. case_decide; [|reflexivity].
  rewrite Hdevice. reflexivity.
Qed.

Lemma loop_toggle_network (kls : list KeylightConfig) (v : Value)
    (env : Env (gmap string Device)) :
  network (snd (for_of kls v (fun keyLight _ => attempt Toggle keyLight) env)) =
  toggled kls (network env).
Proof.
  revert v env. induction kls as [|k kls IH]; intros v env; [reflexivity|].
  rewrite loop_cons. cbn [toggled].
  pose proof (attempt_toggle_network k env) as Hturn.
  destruct (responsive (network env) k).
  - destruct Hturn as (v' & env' & -> & Hnet). rewrite IH, Hnet. reflexivity.
  - destruct Hturn as (e & env' & -> & Hnet). exact Hnet.
Qed.

Lemma toggle_network (env : Env (gmap string Device)) :
  network (snd (toggle env)) = toggled (keyLights env) (network env) /\
  keyLights (snd (toggle env)) = keyLights env.
Proof.
  rewrite <- (returning_snd value_of_bool toggle env).
  change (returning value_of_bool toggle env) with (run Toggle env).
  rewrite run_loop. split; [apply loop_toggle_network|apply loop_keyLights].
Qed.

(** One turn of the loop on a network of devices: a responsive device is
    written, any other makes the turn fail and nothing is written. *)
Lemma attempt_lan (op : Operation) (k : KeylightConfig) (env : Env (gmap string Device)) :
  (exists d l ls env',
      network env !! lights_url k = Some d /\ lights d = l :: ls /\ writable d = true /\
      attempt op k env = (Normal (computed op l), env') /\
      network env' = <[lights_url k := written [pushed op l] d]> (network env) /\
      keyLights env' = keyLights env /\
      requests env' =
        requests env ++ [GET (lights_url k); PUT (lights_url k) [pushed op l]]) \/
  (responsive (network env) k = false /\
   exists env',
      attempt op k env = (Throw (failure op k), env') /\
      network env' = network env /\
      keyLights env' = keyLights env).
Proof.
  unfold attempt, responsive. rewrite getKeyLight_unfold.
  cbn [axios_get lan_axios]. unfold lan_get.
  destruct (network env !! lights_url k) as [[[|l ls] w]|] eqn:Hdevice; cbn;
    try (right; split; [reflexivity|]; eexists; repeat split; reflexivity).
  rewrite updateKeyLight_unfold. cbn [axios_put lan_axios network after_request].
  unfold lan_put. rewrite Hdevice. cbn [writable].
  destruct w; cbn.
  - left. eexists _, l, ls, _. repeat split; try reflexivity.
    cbn [requests after_request]. rewrite <- app_assoc. reflexivity.
  - right. split; [reflexivity|]. eexists. repeat split; reflexivity.
Qed.

Lemma responsive_iff (lan : gmap string Device) (k : KeylightConfig) :
  responsive lan k = true <->
  exists d l ls, lan !! lights_url k = Some d /\ lights d = l :: ls /\ writable d = true.
Proof.
  unfold responsive. split.
  - destruct (lan !! lights_url k) as [[[|l ls] w]|]; try discriminate.
    intros Hw. exists {| lights := l :: ls; writable := w |}, l, ls. auto.
  - intros (d & l & ls & -> & -> & Hw). exact Hw.
Qed.

(** What a call of [toggle] returns, read off [run]. *)
Lemma toggle_returns (env : Env (gmap string Device)) (power : bool) :
  fst (run Toggle env) = Normal (boolean power) -> fst (toggle env) = Normal (Some power).
Proof.
  cbn [run]. unfold returning.
  destruct (toggle env) as [[[b|]|e] env']; cbn; try discriminate.
  intros Hvalue. injection Hvalue as ->. reflexivity.
Qed.

(** A lone responsive endpoint: the value is computed from the device's
    light, and the device is written with what was pushed. *)
Lemma lone_endpoint (op : Operation) (k : KeylightConfig) (lan : gmap string Device)
    (sent : list Request) (d : Device) (l : Light) (ls : list Light) :
  lan !! lights_url k = Some d -> lights d = l :: ls -> writable d = true ->
  let outcome := run op {| keyLights := [k]; network := lan; requests := sent |} in
  fst outcome = Normal (computed op l) /\
  network (snd outcome) = <[lights_url k := written [pushed op l] d]> lan /\
  keyLights (snd outcome) = [k] /\
  requests (snd outcome) =
    sent ++ [GET (lights_url k); PUT (lights_url k) [pushed op l]].
Proof.
  intros Hd Hl Hw outcome. unfold outcome. rewrite run_loop. cbn [keyLights].
  rewrite loop_cons.
  destruct (attempt_lan op k {| keyLights := [k]; network := lan; requests := sent |})
    as [(d' & l' & ls' & env' & Hd' & Hl' & _ & -> & Hnet & Hkeys & Hreq)|(Hk & _)].
  - cbn in Hd'. rewrite Hd in Hd'. injection Hd' as <-.
    rewrite Hl in Hl'. injection Hl' as <- <-.
    cbn [for_of ret fst snd]. auto.
  - exfalso. assert (Hresponsive : responsive lan k = true); [|cbn in Hk; congruence].
    apply responsive_iff. exists d, l, ls. auto.
Qed.

Lemma toggle_twice_network (env : Env (gmap string Device)) :
  network (snd (toggle (snd (toggle env)))) = network env /\
  keyLights (snd (toggle (snd (toggle env)))) = keyLights env.
Proof.
  destruct (toggle_network env) as [Hnet1 Hreg1].
  destruct (toggle_network (snd (toggle env))) as [Hnet2 Hreg2].
  rewrite Hnet2, Hreg2, Hreg1, Hnet1. split; [apply toggled_twice|reflexivity].
Qed.

(** C7. A call of [toggle] pushes to an endpoint the negation of the
    power it fetched from it: the first endpoint gets the GET and then the
    PUT of the negated power of its light, a lone responsive device ends
    with its power negated and the call returns that new power, and over
    any registry the network after the call is the one where the devices
    are switched in turn up to the first that fails. Calling [toggle]
    twice over the same registry leaves every device of the network in
    the state it had before, also with an endpoint that fails (both calls
    then stop at it). *)
Theorem toggle_twice_restores (kls : list KeylightConfig) (lan : gmap string Device)
    (sent : list Request) :
  let env := {| keyLights := kls; network := lan; requests := sent |} in
  let once := snd (toggle env) in
  let twice := snd (toggle once) in
  network once = toggled kls lan /\
  network twice = lan /\
  keyLights twice = kls /\
  (forall k rest d l ls,
      kls = k :: rest -> lan !! lights_url k = Some d -> lights d = l :: ls ->
      (exists more,
          requests once =
          sent ++ GET (lights_url k) :: PUT (lights_url k) [only_on (negb (on l))] :: more) /\
      (rest = [] -> writable d = true ->
       fst (toggle env) = Normal (Some (negb (on l))) /\
       network once !! lights_url k =
         Some {| lights := {| on := negb (on l); brightness := brightness l;
                              temperature := temperature l |} :: ls;
                 writable := true |})) /\
  (forall url body,
      PUT url body ∈ requests twice ->
      PUT url body ∈ sent \/
      exists state, answers url state /\ body = [only_on (negb (on state))]).
Proof.
  intros env once twice.
  assert (Honce : once = snd (run Toggle env)).
  { unfold once. cbn [run]. rewrite returning_snd. reflexivity. }
  split; [exact (proj1 (toggle_network env))|].
  split; [exact (proj1 (toggle_twice_network env))|].
  split; [exact (proj2 (toggle_twice_network env))|].
  split.
  - intros k rest d l ls Hkls Hd Hl. split.
    + assert (Hfetch : getKeyLight k (with_keyLights [] env) =
                       (Normal (Some l),
                        after_request (with_keyLights [] env) (GET (lights_url k)) lan)).
      { rewrite getKeyLight_unfold. cbn [axios_get lan_axios network with_keyLights env].
        unfold lan_get. rewrite Hd, Hl. reflexivity. }
      destruct (turn_sends Toggle env _ _ [] rest k undefined l Hkls eq_refl Hfetch)
        as [more Hsent].
      exists more. rewrite Honce, Hsent. cbn [requests after_request with_keyLights env].
      rewrite <- app_assoc. reflexivity.
    + intros -> Hw. subst kls.
      destruct (lone_endpoint Toggle k lan sent d l ls Hd Hl Hw)
        as (Hvalue & Hnet & _).
      fold env in Hvalue, Hnet. split; [apply toggle_returns; exact Hvalue|].
      rewrite Honce, Hnet, lookup_insert_eq. unfold written. rewrite Hl, Hw. reflexivity.
  - intros url body Hsent.
    apply (named_pushes value_of_bool toggle Toggle once url body eq_refl) in Hsent
      as [Hold|(k & state & _ & _ & Hanswer & ->)].
    + apply (named_pushes value_of_bool toggle Toggle env url body eq_refl) in Hold
        as [Hold|(k & state & _ & _ & Hanswer & ->)]; [left; exact Hold|].
      right. exists state. split; [exact Hanswer|reflexivity].
    + right. exists state. split; [exact Hanswer|reflexivity].
Qed.

(** ** Strings *)

Lemma split_not_nil (sep : ascii) (s : string) : JS.split sep s <> [].
Proof.
  induction s as [|c s IH]; cbn; [discriminate|].
  destruct (Ascii.eqb c sep); [discriminate|].
  destruct (JS.split sep s); [contradiction|discriminate].
Qed.

Lemma concat_more (sep x y : string) (l : list string) :
  String.concat sep (x :: y :: l) = x +:+ sep +:+ String.concat sep (y :: l).
Proof. reflexivity. Qed.

(** Joining the pieces with the separator gives the string back. *)
Lemma split_concat (sep : ascii) (s : string) :
  String.concat (String sep EmptyString) (JS.split sep s) = s.
Proof.
  induction s as [|c s IH]; [reflexivity|]. cbn [JS.split].
  pose proof (split_not_nil sep s) as Hne.
  destruct (JS.split sep s) as [|p ps]; [contradiction|].
  destruct (Ascii.eqb c sep) eqn:Hc.
  - apply Ascii.eqb_eq in Hc as ->. rewrite concat_more, IH. reflexivity.
  - destruct ps as [|p' ps].
    + cbn in IH |- *. rewrite IH. reflexivity.
    + rewrite concat_more in IH |- *. rewrite <- IH. reflexivity.
Qed.

(** No piece holds the separator. *)
Lemma split_pieces (sep : ascii) (s : string) :
  Forall (fun piece => occurrences sep piece = 0) (JS.split sep s).
Proof.
  induction s as [|c s IH]; cbn [JS.split]; [repeat constructor|].
  destruct (Ascii.eqb c sep) eqn:Hc.
  - constructor; [reflexivity|exact IH].
  - destruct (JS.split sep s) as [|p ps].
    + repeat constructor. cbn. rewrite Hc. reflexivity.
    + inversion IH as [|? ? Hp Hps]; subst. constructor; [|exact Hps].
      cbn. rewrite Hc. exact Hp.
Qed.

(** There is one piece more than there are separators. *)
Lemma split_length (sep : ascii) (s : string) :
  length (JS.split sep s) = S (occurrences sep s).
Proof.
  induction s as [|c s IH]; [reflexivity|]. cbn [JS.split occurrences].
  destruct (Ascii.eqb c sep).
  - cbn. rewrite IH. reflexivity.
  - pose proof (split_not_nil sep s) as Hne.
    destruct (JS.split sep s) as [|p ps]; [contradiction|]. cbn in *. exact IH.
Qed.

Lemma append_nil (s : string) : EmptyString +:+ s = s.
Proof. reflexivity. Qed.

Lemma append_cons (c : ascii) (a b : string) : String c a +:+ b = String c (a +:+ b).
Proof. reflexivity. Qed.

Lemma trimStart_spec (s : string) :
  exists before,
    s = before +:+ JS.trimStart s /\ blank before = true /\
    is_space (first_char (JS.trimStart s)) = false.
Proof.
  induction s as [|c s (before & Hs & Hblank & Hfirst)].
  - exists EmptyString. repeat split.
  - cbn [JS.trimStart]. destruct (JS.isWhiteSpace c) eqn:Hc.
    + exists (String c before). split; [|split].
      * rewrite append_cons. f_equal. exact Hs.
      * cbn [blank]. rewrite Hc. exact Hblank.
      * exact Hfirst.
    + exists EmptyString. split; [reflexivity|]. split; [reflexivity|].
      cbn [first_char is_space]. exact Hc.
Qed.

Lemma trimEnd_spec (s : string) :
  exists after,
    s = JS.trimEnd s +:+ after /\ blank after = true /\
    is_space (last_char (JS.trimEnd s)) = false /\
    (is_space (first_char s) = false ->
     is_space (first_char (JS.trimEnd s)) = false).
Proof.
  induction s as [|c s (after & Hs & Hblank & Hlast & _)].
  - exists EmptyString. repeat split.
  - cbn [JS.trimEnd]. destruct (JS.trimEnd s) as [|c' kept] eqn:Hkept.
    + rewrite append_nil in Hs. destruct (JS.isWhiteSpace c) eqn:Hc.
      * exists (String c after). split; [|split; [|split]].
        -- rewrite append_nil. f_equal. exact Hs.
        -- cbn [blank]. rewrite Hc. exact Hblank.
        -- reflexivity.
        -- intros _. reflexivity.
      * exists after. split; [|split; [|split]].
        -- rewrite append_cons, append_nil. f_equal. exact Hs.
        -- exact Hblank.
        -- cbn [last_char is_space]. exact Hc.
        -- intros _. cbn [first_char is_space]. exact Hc.
    + exists after. split; [|split; [|split]].
      * rewrite append_cons in Hs |- *. f_equal. exact Hs.
      * exact Hblank.
      * exact Hlast.
      * intros Hfirst. exact Hfirst.
Qed.

Lemma append_assoc (a b c : string) : (a +:+ b) +:+ c = a +:+ (b +:+ c).
Proof.
  induction a as [|x a IH]; [reflexivity|]. rewrite !append_cons, IH. reflexivity.
Qed.

(** [trim] cuts the white space around its argument, and only that. *)
Lemma trim_trimmed (entry : string) : trimmed entry (JS.trim entry).
Proof.
  unfold JS.trim, trimmed.
  destruct (trimStart_spec entry) as (before & Hentry & Hbefore & Hfirst).
  destruct (trimEnd_spec (JS.trimStart entry)) as (after & Hrest & Hafter & Hlast & Hkeep).
  exists before, after. repeat split; auto.
  rewrite <- Hrest. exact Hentry.
Qed.

(** ** Discovery from the static list *)

Section StaticDiscovery.
Context {W : Type}.

(** C6. With a static list (a non-empty [keyLights_ips]), [discover]
    returns at once: the new registry has one endpoint per entry of the
    list, in order, where the entries are the pieces between the commas
    (one more than there are commas); the [ip] of an endpoint is its entry
    without the white space around it and its [port] is 9123. The network
    is not touched and no request is sent. *)
Theorem static_discovery (preferences : Preferences) (env : Env W) (listed : string) :
  keyLights_ips preferences = Some listed ->
  listed <> EmptyString ->
  let entries := JS.split "," listed in
  exists env',
    discover preferences env = Returned env' /\
    network env' = network env /\
    requests env' = requests env /\
    String.concat "," entries = listed /\
    Forall (fun entry => occurrences "," entry = 0) entries /\
    length entries = S (occurrences "," listed) /\
    length (keyLights env') = length entries /\
    Forall2 (fun entry endpoint =>
               ip endpoint = JS.trim entry /\
               trimmed entry (ip endpoint) /\
               port endpoint = 9123%Z)
            entries (keyLights env').
Proof.
  intros Hips Hlisted entries.
  exists (with_keyLights
            (map (fun ip => {| ip := ip; port := 9123 |}) (map JS.trim entries)) env).
  split.
  { unfold discover. rewrite Hips.
    destruct listed as [|c rest]; [contradiction|]. reflexivity. }
  split; [reflexivity|]. split; [reflexivity|].
  split; [apply split_concat|]. split; [apply split_pieces|].
  split; [apply split_length|].
  split; [cbn; rewrite !length_map; reflexivity|].
  cbn [keyLights with_keyLights]. clear. induction entries as [|entry entries IH].
  - constructor.
  - cbn [map]. constructor; [|exact IH].
    cbn [ip port]. split; [reflexivity|]. split; [apply trim_trimmed|reflexivity].
Qed.

End StaticDiscovery.

Lemma static_discovery_witness :
  exists env',
    discover {| keyLights_count := "2"; keyLights_ips := Some "192.168.1.20, 192.168.1.21 " |}
             idle = Returned env' /\
    network env' = network idle /\
    requests env' = requests idle /\
    String.concat "," (JS.split "," "192.168.1.20, 192.168.1.21 ")
      = "192.168.1.20, 192.168.1.21 " /\
    Forall (fun entry => occurrences "," entry = 0)
           (JS.split "," "192.168.1.20, 192.168.1.21 ") /\
    length (JS.split "," "192.168.1.20, 192.168.1.21 ")
      = S (occurrences "," "192.168.1.20, 192.168.1.21 ") /\
    length (keyLights env') = length (JS.split "," "192.168.1.20, 192.168.1.21 ") /\
    Forall2 (fun entry endpoint =>
               ip endpoint = JS.trim entry /\
               trimmed entry (ip endpoint) /\
               port endpoint = 9123%Z)
            (JS.split "," "192.168.1.20, 192.168.1.21 ") (keyLights env').
Proof.
  apply (static_discovery
           {| keyLights_count := "2"; keyLights_ips := Some "192.168.1.20, 192.168.1.21 " |}
           idle "192.168.1.20, 192.168.1.21 ").
  - reflexivity.
  - discriminate.
Defined.

Example static_discovery_of_two :
  discover {| keyLights_count := "2"; keyLights_ips := Some "192.168.1.20, 192.168.1.21 " |}
           idle
  = Returned {| keyLights := [desk; shelf]; network := tt; requests := [] |}.
Proof. reflexivity. Qed.

(** ** Discovery with Bonjour *)

Section Multicast.
Context {W : Type}.

Lemma on_service_usable (service : RemoteService) (r : Referer) (b : Browsing W) :
  referer service = Some r ->
  address r <> EmptyString ->
  service_port service <> 0%Z ->
  on_service service b =
  let pushed := registry b ++ [{| ip := address r; port := service_port service |}] in
  if length_is pushed (count b) then
    {| browse_env := with_keyLights pushed (browse_env b);
       find := JS.resolve (find b);
       bonjour_up := false;
       timer_armed := timer_armed b;
       count := count b |}
  else
    {| browse_env := with_keyLights pushed (browse_env b);
       find := find b;
       bonjour_up := bonjour_up b;
       timer_armed := timer_armed b;
       count := count b |}.
Proof.
  intros Hreferer Haddress Hport. unfold on_service. rewrite Hreferer.
  destruct (address r) as [|c rest] eqn:Haddr; [contradiction|].
  unfold JS.truthy_int. apply Z.eqb_neq in Hport. rewrite Hport. reflexivity.
Qed.

(** What the callback of [find] can do to the state. *)
Lemma on_service_cases (service : RemoteService) (b : Browsing W) :
  on_service service b = b \/
  exists endpoint,
    registry (on_service service b) = registry b ++ [endpoint] /\
    timer_armed (on_service service b) = timer_armed b /\
    count (on_service service b) = count b /\
    ((find (on_service service b) = find b /\
      bonjour_up (on_service service b) = bonjour_up b) \/
     (find (on_service service b) = JS.resolve (find b) /\
      bonjour_up (on_service service b) = false)).
Proof.
  unfold on_service. destruct (referer service) as [r|]; [|left; reflexivity].
  destruct (JS.truthy_string (address r) && JS.truthy_int (service_port service));
    [|left; reflexivity].
  right. exists {| ip := address r; port := service_port service |}.
  destruct (length_is _ (count b));
    (split; [reflexivity|]; split; [reflexivity|]; split; [reflexivity|]);
    [right|left]; split; reflexivity.
Qed.

Lemma deliver_count (b : Browsing W) (ev : Event) : count (deliver b ev) = count b.
Proof.
  destruct ev as [service|]; cbn [deliver].
  - destruct (bonjour_up b); [|reflexivity].
    destruct (on_service_cases service b) as [->|(endpoint & _ & _ & Hcount & _)];
      [reflexivity|exact Hcount].
  - destruct (timer_armed b); [|reflexivity]. unfold on_timeout.
    destruct (length (registry (disarm b)) =? 0)%nat; reflexivity.
Qed.

Lemma deliver_all_count (b : Browsing W) (evs : list Event) :
  count (deliver_all b evs) = count b.
Proof.
  revert b. induction evs as [|ev evs IH]; intros b; [reflexivity|].
  cbn [deliver_all fold_left]. change (fold_left deliver evs ?x) with (deliver_all x evs).
  rewrite IH. apply deliver_count.
Qed.

Lemma on_timeout_found (b : Browsing W) : registry b <> [] -> on_timeout b = b.
Proof.
  intros Hfound. unfold on_timeout. destruct (registry b); [contradiction|reflexivity].
Qed.

(** Once Bonjour is down and the registry is not empty, nothing changes
    the registry or the promise any more. *)
Lemma frozen (b : Browsing W) (later : list Event) :
  bonjour_up b = false ->
  registry b <> [] ->
  registry (deliver_all b later) = registry b /\
  find (deliver_all b later) = find b /\
  bonjour_up (deliver_all b later) = false.
Proof.
  revert b. induction later as [|ev later IH]; intros b Hdown Hfound; [auto|].
  cbn [deliver_all fold_left]. change (fold_left deliver later ?x) with (deliver_all x later).
  assert (Hstep : registry (deliver b ev) = registry b /\
                  find (deliver b ev) = find b /\
                  bonjour_up (deliver b ev) = false).
  { destruct ev as [service|]; cbn [deliver].
    - rewrite Hdown. auto.
    - destruct (timer_armed b); [|auto].
      rewrite on_timeout_found; [|exact Hfound].
      repeat split; [reflexivity..|exact Hdown]. }
  destruct Hstep as (Hreg & Hfind & Hup).
  destruct (IH (deliver b ev)) as (Hreg' & Hfind' & Hup'); [exact Hup|congruence|].
  rewrite Hreg', Hfind', Hup', Hreg, Hfind. auto.
Qed.

Lemma deliver_unresolved (b : Browsing W) (ev : Event) :
  unresolved b -> unresolved (deliver b ev).
Proof.
  unfold unresolved. intros Hb. destruct ev as [service|]; cbn [deliver].
  - destruct (bonjour_up b) eqn:Hup; [|intros Habsurd; congruence].
    destruct (on_service_cases service b)
      as [->|(endpoint & _ & _ & _ & [[-> ->]|[_ ->]])];
      [rewrite Hup; exact Hb..|].
    intros Habsurd. discriminate.
  - destruct (timer_armed b); [|exact Hb]. unfold on_timeout.
    destruct (length (registry (disarm b)) =? 0)%nat; cbn; [|exact Hb].
    intros Hup. destruct (Hb Hup) as [-> | ->]; cbn; auto.
Qed.

Lemma deliver_all_unresolved (b : Browsing W) (evs : list Event) :
  unresolved b -> unresolved (deliver_all b evs).
Proof.
  revert b. induction evs as [|ev evs IH]; intros b Hb; [exact Hb|].
  cbn [deliver_all fold_left]. change (fold_left deliver evs ?x) with (deliver_all x evs).
  apply IH, deliver_unresolved, Hb.
Qed.

Lemma announced_awaiting_timer (b : Browsing W) (service : RemoteService) :
  awaiting_timer b -> awaiting_timer (deliver b (Announced service)).
Proof.
  unfold awaiting_timer. intros [Harmed Hfind]. cbn [deliver].
  destruct (bonjour_up b) eqn:Hup; [|rewrite Hup; split; assumption].
  assert (Hpending : find b = JS.Pending).
  { destruct Hfind as [Hp|(_ & Hdown & _)]; [exact Hp|discriminate]. }
  destruct (on_service_cases service b)
    as [->|(endpoint & Hreg & Htimer & _ & [[Hsame Hup']|[Hresolved Hdown]])].
  - split; [exact Harmed|left; exact Hpending].
  - split; [congruence|left; congruence].
  - split; [congruence|right].
    rewrite Hresolved, Hpending, Hdown, Hreg. repeat split. intros Hnil.
    apply app_eq_nil in Hnil as [_ Hnil]. discriminate.
Qed.

Lemma announcements_awaiting_timer (b : Browsing W) (services : list RemoteService) :
  awaiting_timer b -> awaiting_timer (deliver_all b (map Announced services)).
Proof.
  revert b. induction services as [|service services IH]; intros b Hb; [exact Hb|].
  cbn [map deliver_all fold_left].
  change (fold_left deliver ?l ?x) with (deliver_all x l).
  apply IH, announced_awaiting_timer, Hb.
Qed.

Lemma browse_awaiting_timer (preferences : Preferences) (env : Env W) :
  awaiting_timer (browse preferences env).
Proof. split; [reflexivity|left; reflexivity]. Qed.

(** C4. When the timer fires, after any announcements: if the registry
    is still empty, [find] was pending and is now rejected with the error
    that no Key Light was discovered; if the registry is not empty, the
    promise, the registry and Bonjour are left as they were. So the timer
    rejects exactly when the registry is empty. *)
Theorem timer_rejects_iff_registry_empty (preferences : Preferences) (env : Env W)
    (services : list RemoteService) :
  let b := deliver_all (browse preferences env) (map Announced services) in
  let b' := deliver b Elapsed in
  (registry b = [] -> find b = JS.Pending /\ find b' = JS.Rejected no_devices) /\
  (registry b <> [] ->
   find b' = find b /\ registry b' = registry b /\ bonjour_up b' = bonjour_up b) /\
  (find b' = JS.Rejected no_devices <-> registry b = []).
Proof.
  intros b b'.
  destruct (announcements_awaiting_timer (browse preferences env) services
              (browse_awaiting_timer preferences env)) as [Harmed Hfind].
  fold b in Harmed, Hfind.
  assert (Hempty : registry b = [] ->
                   find b = JS.Pending /\ find b' = JS.Rejected no_devices).
  { intros Hnil. assert (Hpending : find b = JS.Pending).
    { destruct Hfind as [Hp|(_ & _ & Hfound)]; [exact Hp|contradiction]. }
    split; [exact Hpending|]. unfold b'. cbn [deliver]. rewrite Harmed.
    unfold on_timeout. change (registry (disarm b)) with (registry b).
    rewrite Hnil. cbn. rewrite Hpending. reflexivity. }
  assert (Hfound : registry b <> [] ->
                   find b' = find b /\ registry b' = registry b /\
                   bonjour_up b' = bonjour_up b).
  { intros Hsome. unfold b'. cbn [deliver]. rewrite Harmed.
    rewrite on_timeout_found; [|exact Hsome]. repeat split. }
  split; [exact Hempty|]. split; [exact Hfound|]. split.
  - intros Hrejected. destruct (registry b) as [|k kls] eqn:Hreg; [reflexivity|].
    destruct Hfound as [Hsame _]; [discriminate|].
    rewrite Hsame in Hrejected.
    destruct Hfind as [Hp|(Hf & _)]; congruence.
  - intros Hnil. apply Hempty. exact Hnil.
Qed.

End Multicast.

Section CountReached.
Context {W : Type}.

Lemma unresolved_browse (preferences : Preferences) (env : Env W) :
  unresolved (browse preferences env).
Proof. intros _. left. reflexivity. Qed.

(** C5, as the code has it. When Bonjour announces a usable service that
    brings the length of the registry to the target count, the service is
    pushed and Bonjour is destroyed; from then on no announcement and no
    timer changes the registry or the promise. [find] is fulfilled with
    the whole registry at that moment if it was still pending, which it is
    as long as the timer has not fired (and whenever Bonjour is up it is
    pending or rejected by the timer); if the timer had rejected it, it
    stays rejected. *)
Theorem count_reached_settles (preferences : Preferences) (env : Env W)
    (evs later : list Event) (service : RemoteService) (r : Referer) (n : Z) :
  let b := deliver_all (browse preferences env) evs in
  let b' := deliver b (Announced service) in
  let b'' := deliver_all b' later in
  bonjour_up b = true ->
  referer service = Some r ->
  address r <> EmptyString ->
  service_port service <> 0%Z ->
  JS.parseInt (keyLights_count preferences) = Some n ->
  (Z.of_nat (length (registry b)) + 1 = n)%Z ->
  registry b' = registry b ++ [{| ip := address r; port := service_port service |}] /\
  bonjour_up b' = false /\
  (find b = JS.Pending \/ find b = JS.Rejected no_devices) /\
  ((exists services, evs = map Announced services) -> find b = JS.Pending) /\
  (find b = JS.Pending ->
   find_value b' = Some (registry b') /\ find_value b'' = Some (registry b')) /\
  (find b = JS.Rejected no_devices -> find b'' = JS.Rejected no_devices) /\
  registry b'' = registry b' /\ find b'' = find b' /\ bonjour_up b'' = false.
Proof.
  intros b b' b'' Hup Hreferer Haddress Hport Hcount Hlength.
  assert (Hcount_b : count b = Some n).
  { unfold b. rewrite deliver_all_count. exact Hcount. }
  assert (Hb' : b' = {| browse_env :=
                          with_keyLights
                            (registry b ++ [{| ip := address r; port := service_port service |}])
                            (browse_env b);
                        find := JS.resolve (find b);
                        bonjour_up := false;
                        timer_armed := timer_armed b;
                        count := count b |}).
  { unfold b'. cbn [deliver]. rewrite Hup.
    rewrite (on_service_usable service r b Hreferer Haddress Hport). cbv zeta.
    rewrite Hcount_b. unfold length_is. rewrite length_app. cbn [length].
    replace (Z.of_nat (length (registry b) + 1) =? n)%Z with true; [reflexivity|].
    symmetry. apply Z.eqb_eq. lia. }
  assert (Hreg' : registry b' =
                  registry b ++ [{| ip := address r; port := service_port service |}]).
  { rewrite Hb'. reflexivity. }
  assert (Hfind' : find b' = JS.resolve (find b)) by (rewrite Hb'; reflexivity).
  assert (Hdown' : bonjour_up b' = false) by (rewrite Hb'; reflexivity).
  assert (Hfound' : registry b' <> []).
  { rewrite Hreg'. intros Hnil. apply app_eq_nil in Hnil as [_ Hnil]. discriminate. }
  destruct (frozen b' later Hdown' Hfound') as (Hreg'' & Hfind'' & Hdown'').
  fold b'' in Hreg'', Hfind'', Hdown''.
  split; [exact Hreg'|]. split; [exact Hdown'|]. split.
  { apply (deliver_all_unresolved _ evs (unresolved_browse preferences env)). exact Hup. }
  split.
  { intros [services ->].
    destruct (announcements_awaiting_timer (browse preferences env) services
                (browse_awaiting_timer preferences env)) as [_ [Hp|(_ & Hdown & _)]].
    - exact Hp.
    - fold b in Hdown. congruence. }
  split.
  { intros Hpending. unfold find_value. rewrite Hfind'', Hfind', Hpending, Hreg''.
    split; reflexivity. }
  split.
  { intros Hrejected. rewrite Hfind'', Hfind', Hrejected. reflexivity. }
  split; [exact Hreg''|]. split; [exact Hfind''|exact Hdown''].
Qed.

End CountReached.

(** ** Discoveries on the sample installations *)

Lemma count_reached_settles_witness :
  let b := deliver_all (browse (wanted "2") idle) [announce "192.168.1.20"] in
  let b' := deliver b (announce "192.168.1.21") in
  let b'' := deliver_all b' [announce "192.168.1.22"; Elapsed] in
  registry b' = registry b ++ [shelf] /\
  bonjour_up b' = false /\
  (find b = JS.Pending \/ find b = JS.Rejected no_devices) /\
  ((exists services, [announce "192.168.1.20"] = map Announced services) ->
   find b = JS.Pending) /\
  (find b = JS.Pending ->
   find_value b' = Some (registry b') /\ find_value b'' = Some (registry b')) /\
  (find b = JS.Rejected no_devices -> find b'' = JS.Rejected no_devices) /\
  registry b'' = registry b' /\ find b'' = find b' /\ bonjour_up b'' = false.
Proof.
  cbv zeta.
  apply (count_reached_settles (wanted "2") idle [announce "192.168.1.20"]
           [announce "192.168.1.22"; Elapsed]
           {| referer := Some {| address := "192.168.1.21" |}; service_port := 9123 |}
           {| address := "192.168.1.21" |} 2).
  - reflexivity.
  - reflexivity.
  - discriminate.
  - discriminate.
  - reflexivity.
  - reflexivity.
Defined.

(** C5 as stated fails: with a target count of 1, when the timer fires on
    the empty registry and a service is announced afterwards, the length
    of the registry equals the count and [find] is rejected, not
    fulfilled. *)
Lemma count_reached_after_rejection :
  ~ (forall (preferences : Preferences) (evs : list Event),
        let b := deliver_all (browse preferences idle) evs in
        length_is (registry b) (count b) = true ->
        find_value b = Some (registry b) /\ bonjour_up b = false).
Proof.
  intros Hclaim.
  destruct (Hclaim (wanted "1") [Elapsed; announce "192.168.1.20"]) as [Hvalue _].
  - reflexivity.
  - discriminate Hvalue.
Qed.

Example late_service_meets_rejected_promise :
  let b := deliver_all (browse (wanted "1") idle) [Elapsed; announce "192.168.1.20"] in
  registry b = [desk] /\ find b = JS.Rejected no_devices /\ bonjour_up b = false.
Proof. repeat split. Qed.

Lemma timer_rejects_iff_registry_empty_witness :
  let b := deliver_all (browse (wanted "2") idle)
             (map Announced [{| referer := None; service_port := 9123 |}]) in
  let b' := deliver b Elapsed in
  (registry b = [] -> find b = JS.Pending /\ find b' = JS.Rejected no_devices) /\
  (registry b <> [] ->
   find b' = find b /\ registry b' = registry b /\ bonjour_up b' = bonjour_up b) /\
  (find b' = JS.Rejected no_devices <-> registry b = []).
Proof.
  exact (timer_rejects_iff_registry_empty (wanted "2") idle
           [{| referer := None; service_port := 9123 |}]).
Defined.

Example one_of_two_found_and_timer :
  let b := deliver_all (browse (wanted "2") idle) [announce "192.168.1.20"; Elapsed] in
  registry b = [desk] /\ find b = JS.Pending /\ bonjour_up b = true.
Proof. repeat split. Qed.

(** ** Runs on the sample installations *)

Example toggle_switches_off :
  let env := start [desk] (alone desk (light true 40 200) true) in
  fst (toggle env) = Normal (Some false) /\
  network (snd (toggle env)) !! lights_url desk
    = Some {| lights := [light false 40 200]; writable := true |} /\
  requests (snd (toggle env))
    = [GET "http://192.168.1.20:9123/elgato/lights";
       PUT "http://192.168.1.20:9123/elgato/lights" [only_on false]].
Proof. vm_compute. repeat split. Qed.

Example increase_from_98 :
  fst (increaseBrightness (start [desk] (alone desk (light true 98 200) true)))
  = Normal (Some 100%Q).
Proof. vm_compute. reflexivity. Qed.

Example decrease_from_3 :
  fst (decreaseBrightness (start [desk] (alone desk (light true 3 200) true)))
  = Normal (Some 0%Q).
Proof. vm_compute. reflexivity. Qed.

Example increase_from_340 :
  fst (increaseTemperature (start [desk] (alone desk (light true 50 340) true)))
  = Normal (Some 344%Q).
Proof. vm_compute. reflexivity. Qed.

Example second_endpoint_is_not_asked :
  let env := start [desk; shelf] (alone shelf (light true 40 200) true) in
  fst (increaseBrightness env)
    = Throw (Error "Failed increasing brightness for 192.168.1.20") /\
  requests (snd (increaseBrightness env)) = [GET "http://192.168.1.20:9123/elgato/lights"].
Proof. vm_compute. repeat split. Qed.

Example last_value_is_returned :
  let lan : gmap string Device :=
    <[lights_url shelf := {| lights := [light false 10 200]; writable := true |}]>
      (alone desk (light true 98 200) true) in
  fst (increaseBrightness (start [desk; shelf] lan)) = Normal (Some 15%Q).
Proof. vm_compute. reflexivity. Qed.

(** * Further properties *)

(** ** Traces of the control operations *)

Section Traces.
Context {W : Type} `{Axios W}.

Lemma exchanges_snoc (op : Operation) fetched (pair : KeylightConfig * Light) :
  exchanges op (fetched ++ [pair]) = exchanges op fetched ++ exchange op pair.
Proof.
  unfold exchanges. rewrite map_app, concat_app.
  change (concat (map (exchange op) [pair])) with (exchange op pair ++ []).
  rewrite app_nil_r. reflexivity.
Qed.

Lemma exchanges_cons (op : Operation) (pair : KeylightConfig * Light) fetched :
  exchanges op (pair :: fetched) = exchange op pair ++ exchanges op fetched.
Proof. reflexivity. Qed.

(** What one turn of the loop does, with all it leaves behind. *)
Lemma attempt_cases (op : Operation) (k : KeylightConfig) (env : Env W) :
  (exists state env',
      attempt op k env = (Normal (computed op state), env') /\
      answers (lights_url k) state /\
      requests env' = requests env ++ exchange op (k, state)) \/
  (exists env',
      attempt op k env = (Throw (failure op k), env') /\
      (requests env' = requests env ++ [GET (lights_url k)] \/
       exists state,
         answers (lights_url k) state /\
         requests env' = requests env ++ exchange op (k, state))).
Proof.
  unfold attempt.
  pose proof (getKeyLight_requests k env) as Hget.
  destruct (getKeyLight k env) as [[[state|]|e] env1] eqn:Hfetch; cbn in Hget.
  - pose proof (updateKeyLight_requests k (pushed op state) env1) as Hput.
    assert (Hsent : forall env2 : Env W,
               requests env2 = requests env1 ++ [PUT (lights_url k) [pushed op state]] ->
                                 requests env2 = requests env ++ exchange op (k, state)).
    { intros env2 ->. rewrite Hget, <- app_assoc. reflexivity. }
    destruct (updateKeyLight k (pushed op state) env1) as [[[]|e] env2]; cbn in Hput.
    + left. exists state, env2. split; [reflexivity|].
      split; [eapply getKeyLight_answers; eassumption|auto].
    + right. exists env2. split; [reflexivity|]. right. exists state.
      split; [eapply getKeyLight_answers; eassumption|auto].
  - right. exists env1. split; [reflexivity|]. left. exact Hget.
  - right. exists env1. split; [reflexivity|]. left. exact Hget.
Qed.

Lemma last_computed_cons (op : Operation) (pair : KeylightConfig * Light) fetched :
  last_computed op (pair :: fetched) =
  match fetched with
  | [] => computed op (snd pair)
  | _ :: _ => last_computed op fetched
  end.
Proof. unfold last_computed. destruct pair, fetched; reflexivity. Qed.

(** The whole loop: either every endpoint is asked and told in turn, or
    the loop stops at the first endpoint that fails. *)
Lemma loop_trace (op : Operation) (ks : list KeylightConfig) (v : Value) (env : Env W) :
  (exists fetched env',
      for_of ks v (fun keyLight _ => attempt op keyLight) env =
        (Normal (match fetched with [] => v | _ => last_computed op fetched end), env') /\
      map fst fetched = ks /\
      all_answered fetched /\
      requests env' = requests env ++ exchanges op fetched) \/
  (exists before k after fetched env',
      for_of ks v (fun keyLight _ => attempt op keyLight) env =
        (Throw (failure op k), env') /\
      ks = before ++ k :: after /\
      map fst fetched = before /\
      all_answered fetched /\
      (requests env' = requests env ++ exchanges op fetched ++ [GET (lights_url k)] \/
       exists state,
         answers (lights_url k) state /\
         requests env' = requests env ++ exchanges op fetched ++ exchange op (k, state))).
Proof.
  revert v env. induction ks as [|k ks IH]; intros v env.
  - left. exists [], env. cbn. rewrite app_nil_r. repeat split. constructor.
  - rewrite loop_cons.
    destruct (attempt_cases op k env)
      as [(state & env1 & -> & Hanswer & Hsent)|(env1 & -> & Hsent)].
    + destruct (IH (computed op state) env1)
        as [(fetched & env' & -> & Hks & Hall & Hreq)
           |(before & k' & after & fetched & env' & -> & Hks & Hbefore & Hall & Hreq)].
      * left. exists ((k, state) :: fetched), env'. split.
        { rewrite last_computed_cons. destruct fetched; reflexivity. }
        split; [cbn; rewrite Hks; reflexivity|].
        split; [constructor; assumption|].
        rewrite Hreq, Hsent, exchanges_cons, <- app_assoc. reflexivity.
      * right. exists (k :: before), k', after, ((k, state) :: fetched), env'.
        split; [reflexivity|]. split; [rewrite Hks; reflexivity|].
        split; [cbn; rewrite Hbefore; reflexivity|].
        split; [constructor; assumption|].
        destruct Hreq as [Hreq|(state' & Hanswer' & Hreq)].
        -- left. rewrite Hreq, Hsent, exchanges_cons, <- !app_assoc. reflexivity.
        -- right. exists state'. split; [exact Hanswer'|].
           rewrite Hreq, Hsent, exchanges_cons, <- !app_assoc. reflexivity.
    + right. exists [], k, ks, [], env1.
      split; [reflexivity|]. split; [reflexivity|]. split; [reflexivity|].
      split; [constructor|]. exact Hsent.
Qed.

End Traces.

Section Completed.
Context {W : Type} `{Axios W}.

(** X1. An operation that completes has asked and told every endpoint of
    the registry once, in the order of the registry, the GET of an
    endpoint right before its PUT; it returns the value computed from the
    last state fetched and leaves the registry as it was. *)
Theorem completed_operation_trace (op : Operation) (env env' : Env W) (v : Value) :
  run op env = (Normal v, env') ->
  exists fetched,
    map fst fetched = keyLights env /\
    all_answered fetched /\
    requests env' = requests env ++ exchanges op fetched /\
    length (requests env') = (length (requests env) + 2 * length (keyLights env))%nat /\
    v = last_computed op fetched /\
    keyLights env' = keyLights env.
Proof.
  intros Hrun. pose proof (loop_keyLights op (keyLights env) undefined env) as Hkept.
  rewrite run_loop in Hrun. rewrite Hrun in Hkept. cbn in Hkept.
  destruct (loop_trace op (keyLights env) undefined env)
    as [(fetched & env1 & Hloop & Hks & Hall & Hreq)
       |(before & k & after & fetched & env1 & Hloop & _)];
    rewrite Hloop in Hrun; [|discriminate].
  injection Hrun as <- <-. exists fetched.
  split; [exact Hks|]. split; [exact Hall|]. split; [exact Hreq|].
  split; [|split; [destruct fetched; reflexivity|exact Hkept]].
  rewrite Hreq, length_app, <- Hks, length_map. f_equal.
  clear. induction fetched as [|pair fetched IH]; [reflexivity|].
  rewrite exchanges_cons, length_app, IH. cbn. lia.
Qed.

(** X2. An operation that aborts names an endpoint of the registry. Every
    endpoint before it has been asked and told, in order, and keeps what
    it was told; the endpoint itself got the GET, and the PUT if it had
    answered; no endpoint after it got any request. *)
Theorem aborted_operation_trace (op : Operation) (env env' : Env W) (e : Exn) :
  run op env = (Throw e, env') ->
  exists before k after fetched,
    keyLights env = before ++ k :: after /\
    e = failure op k /\
    map fst fetched = before /\
    all_answered fetched /\
    (requests env' = requests env ++ exchanges op fetched ++ [GET (lights_url k)] \/
     exists state,
       answers (lights_url k) state /\
       requests env' = requests env ++ exchanges op fetched ++ exchange op (k, state)).
Proof.
  intros Hrun. rewrite run_loop in Hrun.
  destruct (loop_trace op (keyLights env) undefined env)
    as [(fetched & env1 & Hloop & _)
       |(before & k & after & fetched & env1 & Hloop & Hks & Hbefore & Hall & Hreq)];
    rewrite Hloop in Hrun; [discriminate|].
  injection Hrun as <- <-. exists before, k, after, fetched. auto.
Qed.

(** The value of a completed operation comes from the last endpoint. *)
Lemma loop_value (op : Operation) (env env' : Env W) (v : Value)
    (before : list KeylightConfig) (k : KeylightConfig) :
  keyLights env = before ++ [k] ->
  for_of (keyLights env) undefined (fun keyLight _ => attempt op keyLight) env
    = (Normal v, env') ->
  v <> undefined /\
  exists state, answers (lights_url k) state /\ v = computed op state.
Proof.
  intros Hregistry Hrun.
  destruct (loop_trace op (keyLights env) undefined env)
    as [(fetched & env1 & Hloop & Hks & Hall & _)
       |(before' & k' & after & fetched & env1 & Hloop & _)];
    rewrite Hloop in Hrun; [|discriminate].
  injection Hrun as <- <-. rewrite Hregistry in Hks.
  destruct fetched as [|pair fetched _] using rev_ind.
  { destruct before; discriminate. }
  rewrite map_app in Hks. apply app_inj_tail in Hks as [_ Hk].
  apply Forall_app in Hall as [_ Hlast]. inversion Hlast as [|? ? Hanswer _]; subst.
  destruct pair as [k state]. cbn in *.
  assert (Hvalue : match fetched ++ [(k, state)] with
                   | [] => undefined
                   | _ :: _ => last_computed op (fetched ++ [(k, state)])
                   end = computed op state).
  { unfold last_computed. rewrite last_snoc. destruct fetched; reflexivity. }
  rewrite Hvalue. split; [destruct op; discriminate|].
  exists state. split; [exact Hanswer|reflexivity].
Qed.

(** X3. Over a registry that is not empty, an operation that completes
    returns what it computed from the state that the last endpoint
    answered, whatever the endpoints before it answered; it does not
    return [undefined]. *)
Theorem last_endpoint_decides_result (op : Operation) (env env' : Env W) (v : Value)
    (before : list KeylightConfig) (k : KeylightConfig) :
  keyLights env = before ++ [k] ->
  run op env = (Normal v, env') ->
  v <> undefined /\
  exists state, answers (lights_url k) state /\ v = computed op state.
Proof.
  intros Hregistry Hrun. rewrite run_loop in Hrun.
  apply (loop_value op env env' v before k Hregistry Hrun).
Qed.

(** X4. An endpoint that answers the GET with an empty [lights] array
    makes any operation fail on it: the state is [undefined], reading its
    field throws inside the [try], and the operation throws its own error
    after the GET alone, without a PUT. *)
Theorem empty_lights_array_aborts (op : Operation) (k : KeylightConfig)
    (rest : list KeylightConfig) (env : Env W) (w : W) :
  keyLights env = k :: rest ->
  axios_get (lights_url k) (network env) = (Normal [], w) ->
  getKeyLight k env = (Normal None, after_request env (GET (lights_url k)) w) /\
  run op env = (Throw (failure op k), after_request env (GET (lights_url k)) w).
Proof.
  intros Hregistry Hanswer.
  assert (Hfetch : getKeyLight k env =
                   (Normal None, after_request env (GET (lights_url k)) w)).
  { rewrite getKeyLight_unfold, Hanswer. reflexivity. }
  split; [exact Hfetch|].
  rewrite run_loop, Hregistry, loop_cons. unfold attempt. rewrite Hfetch. reflexivity.
Qed.

Lemma increased_brightness (b : Q) :
  JS.isInteger b = true ->
  JS.isInteger (JS.Math_min (b + 5) 100) = true /\
  ((b <= 95 -> JS.Math_min (b + 5) 100 == b + 5) /\
   (95 <= b -> JS.Math_min (b + 5) 100 == 100))%Q.
Proof.
  intros Hint. apply isInteger_iff in Hint as [n Hn].
  destruct (min_cases (b + 5) 100) as [[Hlt Hmin]|[Hle Hmin]].
  - split; [|split; intros; lra].
    apply isInteger_iff. exists (n + 5)%Z. rewrite inject_Z_plus.
    change (inject_Z 5) with 5%Q. lra.
  - split; [|split; intros; lra].
    apply isInteger_iff. exists 100%Z. exact Hmin.
Qed.

Lemma decreased_brightness (b : Q) :
  JS.isInteger b = true ->
  JS.isInteger (JS.Math_max (b - 5) 0) = true /\
  ((5 <= b -> JS.Math_max (b - 5) 0 == b - 5) /\
   (b <= 5 -> JS.Math_max (b - 5) 0 == 0))%Q.
Proof.
  intros Hint. apply isInteger_iff in Hint as [n Hn].
  destruct (max_cases (b - 5) 0) as [[Hlt Hmax]|[Hle Hmax]].
  - split; [|split; intros; lra].
    apply isInteger_iff. exists 0%Z. exact Hmax.
  - split; [|split; intros; lra].
    apply isInteger_iff. exists (n + - 5)%Z. rewrite inject_Z_plus.
    change (inject_Z (- 5)) with (- 5)%Q. lra.
Qed.

(** X5. In the turn of an endpoint that answers the GET with a whole
    brightness between 0 and 100, [increaseBrightness] sends that endpoint,
    right after the GET, a PUT that carries the brightness and no other
    field: the fetched brightness plus 5 up to 95, and 100 from 95 on;
    [decreaseBrightness] sends the fetched brightness minus 5 from 5 on,
    and 0 up to 5. What is sent is whole again. *)
Theorem brightness_step_or_bound (env env_k env1 : Env W)
    (before after : list KeylightConfig) (k : KeylightConfig) (state : Light) :
  keyLights env = before ++ k :: after ->
  getKeyLight k env_k = (Normal (Some state), env1) ->
  JS.isInteger (brightness state) = true ->
  (0 <= brightness state <= 100)%Q ->
  (forall v,
      increaseBrightness (with_keyLights before env) = (Normal v, env_k) ->
      exists q more,
        requests (snd (increaseBrightness env)) =
          requests env1 ++ PUT (lights_url k) [only_brightness q] :: more /\
        q = JS.Math_min (brightness state + 5) 100 /\
        JS.isInteger q = true /\
        ((brightness state <= 95 -> q == brightness state + 5) /\
         (95 <= brightness state -> q == 100))%Q) /\
  (forall v,
      decreaseBrightness (with_keyLights before env) = (Normal v, env_k) ->
      exists q more,
        requests (snd (decreaseBrightness env)) =
          requests env1 ++ PUT (lights_url k) [only_brightness q] :: more /\
        q = JS.Math_max (brightness state - 5) 0 /\
        JS.isInteger q = true /\
        ((5 <= brightness state -> q == brightness state - 5) /\
         (brightness state <= 5 -> q == 0))%Q).
Proof.
  intros Hregistry Hfetch Hint _. split; intros v Hbefore.
  - apply (named_completes value_of_number) in Hbefore.
    destruct (turn_sends IncreaseBrightness env env_k env1 before after k _ state
                Hregistry Hbefore Hfetch) as [more Hsent].
    cbn [run] in Hsent. rewrite returning_snd in Hsent.
    eexists _, more. split; [exact Hsent|]. split; [reflexivity|].
    apply increased_brightness. exact Hint.
  - apply (named_completes value_of_number) in Hbefore.
    destruct (turn_sends DecreaseBrightness env env_k env1 before after k _ state
                Hregistry Hbefore Hfetch) as [more Hsent].
    cbn [run] in Hsent. rewrite returning_snd in Hsent.
    eexists _, more. split; [exact Hsent|]. split; [reflexivity|].
    apply decreased_brightness. exact Hint.
Qed.

End Completed.

(** ** The operations on a network of devices *)

(** A property of the network that every write of [op] keeps is kept by
    the loop of [op]. *)
Lemma loop_lan_invariant (P : gmap string Device -> Prop) (op : Operation)
    (ks : list KeylightConfig) :
  (forall lan k d l ls,
      k ∈ ks -> lan !! lights_url k = Some d -> lights d = l :: ls -> writable d = true ->
      P lan -> P (<[lights_url k := written [pushed op l] d]> lan)) ->
  forall v env,
    P (network env) ->
    P (network (snd (for_of ks v (fun keyLight _ => attempt op keyLight) env))).
Proof.
  induction ks as [|k ks IH]; intros Hwrite v env HP; [exact HP|].
  rewrite loop_cons.
  destruct (attempt_lan op k env)
    as [(d & l & ls & env' & Hd & Hl & Hw & -> & Hnet & _)|(_ & env' & -> & Hnet & _)].
  - apply IH.
    + intros lan k0 d0 l0 ls0 Hk0. apply Hwrite. right. exact Hk0.
    + rewrite Hnet. apply (Hwrite _ k d l ls); [left|..]; assumption.
  - cbn. rewrite Hnet. exact HP.
Qed.

Lemma kept_merge (op : Operation) (l0 l : Light) :
  kept op l0 l -> kept op l0 (merge (pushed op l) l).
Proof. destruct op; cbn; intros [? ?]; split; assumption. Qed.

Lemma kept_refl (op : Operation) (l : Light) : kept op l l.
Proof. destruct op; split; reflexivity. Qed.

(** X7. On a network of devices that merge what they are told, an
    operation changes nothing but the field it pushes, on the first light
    of a device: every device is still there, accepts writes as before,
    has its first light with the other two fields as they were and all its
    other lights unchanged; a device whose URL is not that of an endpoint
    of the registry is the same as before. This holds whether the
    operation completes or aborts. *)
Theorem operation_changes_its_field_only (op : Operation) (kls : list KeylightConfig)
    (lan : gmap string Device) (sent : list Request) (url : string) :
  let env := {| keyLights := kls; network := lan; requests := sent |} in
  let lan' := network (snd (run op env)) in
  option_Forall2 (kept_device op) (lan !! url) (lan' !! url) /\
  (url ∉ map lights_url kls -> lan' !! url = lan !! url).
Proof.
  intros env lan'. unfold lan'. rewrite run_loop.
  apply (loop_lan_invariant
           (fun now => option_Forall2 (kept_device op) (lan !! url) (now !! url) /\
                       (url ∉ map lights_url kls -> now !! url = lan !! url))).
  - intros now k d l ls Hk Hd Hl Hw [Hkept Hother]. split.
    + destruct (decide (lights_url k = url)) as [<-|Hne].
      * rewrite lookup_insert_eq. rewrite Hd in Hkept.
        inversion Hkept as [d0 ? (Hw0 & Hhead & Htail)|]; subst. constructor.
        unfold kept_device, written. cbn [lights writable].
        rewrite Hl in Hhead, Htail |- *. cbn [merge_all head tail] in *.
        split; [exact Hw0|]. split; [|exact Htail].
        inversion Hhead as [l0 ? Hl0|]; subst. constructor.
        apply kept_merge. exact Hl0.
      * rewrite lookup_insert_ne by exact Hne. exact Hkept.
    + intros Hnot. rewrite lookup_insert_ne; [apply Hother; exact Hnot|].
      intros <-. apply Hnot. apply list_elem_of_fmap. exists k. split; [reflexivity|exact Hk].
  - split; [|reflexivity]. cbn. destruct (lan !! url) as [d|]; constructor.
    split; [reflexivity|]. split; [|reflexivity].
    destruct (head (lights d)); constructor. apply kept_refl.
Qed.

Lemma in_domain_merge (op : Operation) (l : Light) :
  in_domain l -> in_domain (merge (pushed op l) l).
Proof.
  unfold in_domain. pose proof TEMPERATURE_STEP_value as Hstep.
  intros (Hb0 & Hb1 & Ht0 & Ht1).
  destruct op; cbn -[TEMPERATURE_STEP JS.Math_min JS.Math_max];
    unfold WARM_TEMPERATURE, COLD_TEMPERATURE in *.
  - auto.
  - destruct (min_cases (brightness l + 5) 100) as [[? ?]|[? ?]]; repeat split; lra.
  - destruct (max_cases (brightness l - 5) 0) as [[? ?]|[? ?]]; repeat split; lra.
  - destruct (min_cases (temperature l + TEMPERATURE_STEP) 344) as [[? ?]|[? ?]];
      repeat split; lra.
  - destruct (max_cases (temperature l - TEMPERATURE_STEP) 143) as [[? ?]|[? ?]];
      repeat split; lra.
Qed.

(** X8. On a network of devices whose lights all have their brightness
    in [0,100] and their temperature in [143,344], every operation leaves
    all lights inside these domains, whether it completes or aborts. *)
Theorem operations_keep_domains (op : Operation) (kls : list KeylightConfig)
    (lan : gmap string Device) (sent : list Request) :
  all_in_domain lan ->
  all_in_domain
    (network (snd (run op {| keyLights := kls; network := lan; requests := sent |}))).
Proof.
  intros Hdomain. rewrite run_loop.
  apply (loop_lan_invariant all_in_domain); [|exact Hdomain].
  intros now k d l ls _ Hd Hl Hw Hnow url d' l' Hd' Hl'.
  destruct (decide (lights_url k = url)) as [<-|Hne].
  - rewrite lookup_insert_eq in Hd'. injection Hd' as <-.
    cbn in Hl'. rewrite Hl in Hl'. cbn in Hl'.
    apply elem_of_cons in Hl' as [->|Hl'].
    + apply in_domain_merge. apply (Hnow _ d l Hd). rewrite Hl. left.
    + apply (Hnow _ d l' Hd). rewrite Hl. right. exact Hl'.
  - rewrite lookup_insert_ne in Hd' by exact Hne. apply (Hnow url d' l' Hd' Hl').
Qed.

(** X9. There is no rolling back: when the first endpoint of the registry
    is a responsive device and the second is not, the operation aborts
    with the error for the second endpoint and the first device keeps what
    it was told; nothing else on the network has changed. *)
Theorem first_endpoint_keeps_change (op : Operation) (k1 k2 : KeylightConfig)
    (rest : list KeylightConfig) (lan : gmap string Device) (sent : list Request)
    (d : Device) (l : Light) (ls : list Light) :
  lan !! lights_url k1 = Some d ->
  lights d = l :: ls ->
  writable d = true ->
  responsive lan k2 = false ->
  let outcome := run op {| keyLights := k1 :: k2 :: rest; network := lan; requests := sent |} in
  fst outcome = Throw (failure op k2) /\
  network (snd outcome) = <[lights_url k1 := written [pushed op l] d]> lan.
Proof.
  intros Hd Hl Hw Hk2 outcome. unfold outcome. rewrite run_loop. cbn [keyLights].
  rewrite loop_cons.
  destruct (attempt_lan op k1 {| keyLights := k1 :: k2 :: rest; network := lan;
                                 requests := sent |})
    as [(d' & l' & ls' & env1 & Hd' & Hl' & _ & -> & Hnet & _)|(Hk1 & _)].
  - cbn in Hd'. rewrite Hd in Hd'. injection Hd' as <-.
    rewrite Hl in Hl'. injection Hl' as <- <-.
    rewrite loop_cons.
    destruct (attempt_lan op k2 env1)
      as [(d2 & l2 & ls2 & env2 & Hd2 & Hl2 & Hw2 & _)|(_ & env2 & -> & Hnet2 & _)].
    + exfalso. rewrite Hnet in Hd2.
      assert (Hresponsive : responsive lan k2 = true); [|congruence].
      apply responsive_iff. destruct (decide (lights_url k1 = lights_url k2)) as [Heq|Hne].
      * rewrite <- Heq. exists d, l, ls. auto.
      * rewrite lookup_insert_ne in Hd2 by exact Hne. exists d2, l2, ls2. auto.
    + cbn. split; [reflexivity|]. rewrite Hnet2. exact Hnet.
  - exfalso. cbn in Hk1.
    assert (Hresponsive : responsive lan k1 = true); [|congruence].
    apply responsive_iff. exists d, l, ls. auto.
Qed.

(** X10. With one endpoint and a responsive device behind it,
    [increaseBrightness] followed by [decreaseBrightness] brings the
    brightness back when it was an integer between 0 and 95, and
    [decreaseBrightness] followed by [increaseBrightness] brings it back
    when it was an integer between 5 and 100; from 95 on the first pair
    ends at 95, up to 5 the second pair ends at 5. Power and temperature
    stay. *)
Theorem brightness_round_trip (k : KeylightConfig) (lan : gmap string Device)
    (sent : list Request) (d : Device) (l : Light) (ls : list Light) :
  lan !! lights_url k = Some d ->
  lights d = l :: ls ->
  writable d = true ->
  let env := {| keyLights := [k]; network := lan; requests := sent |} in
  let up_down := network (snd (decreaseBrightness (snd (increaseBrightness env)))) in
  let down_up := network (snd (increaseBrightness (snd (decreaseBrightness env)))) in
  (exists l',
      up_down !! lights_url k = Some {| lights := l' :: ls; writable := true |} /\
      on l' = on l /\ temperature l' = temperature l /\
      ((JS.isInteger (brightness l) = true ->
        0 <= brightness l -> brightness l <= 95 -> brightness l' == brightness l) /\
       (95 <= brightness l -> brightness l' == 95))%Q) /\
  (exists l',
      down_up !! lights_url k = Some {| lights := l' :: ls; writable := true |} /\
      on l' = on l /\ temperature l' = temperature l /\
      ((JS.isInteger (brightness l) = true ->
        5 <= brightness l -> brightness l <= 100 -> brightness l' == brightness l) /\
       (brightness l <= 5 -> brightness l' == 5))%Q).
Proof.
  intros Hd Hl Hw env up_down down_up.
  assert (Hstep : forall (op : Operation) (now : Env (gmap string Device)) d0 l0,
             keyLights now = [k] ->
             network now !! lights_url k = Some d0 -> lights d0 = l0 :: ls ->
             writable d0 = true ->
             keyLights (snd (run op now)) = [k] /\
             network (snd (run op now)) !! lights_url k =
               Some {| lights := merge (pushed op l0) l0 :: ls; writable := true |}).
  { intros op now d0 l0 Hreg Hd0 Hl0 Hw0. destruct now as [kls0 lan0 sent0].
    cbn in Hreg, Hd0. subst kls0.
    destruct (lone_endpoint op k lan0 sent0 d0 l0 ls Hd0 Hl0 Hw0) as (_ & Hnet & Hkeys & _).
    split; [exact Hkeys|]. rewrite Hnet, lookup_insert_eq.
    unfold written. rewrite Hl0, Hw0. reflexivity. }
  assert (Hrun : forall (op : Operation) (now : Env (gmap string Device)),
             snd (run op now) =
             snd (match op with
                  | Toggle => returning value_of_bool toggle now
                  | IncreaseBrightness => returning value_of_number increaseBrightness now
                  | DecreaseBrightness => returning value_of_number decreaseBrightness now
                  | IncreaseTemperature => returning value_of_number increaseTemperature now
                  | DecreaseTemperature => returning value_of_number decreaseTemperature now
                  end)).
  { intros [] now; reflexivity. }
  split.
  - destruct (Hstep IncreaseBrightness env d l eq_refl Hd Hl Hw) as [Hreg1 Hnet1].
    destruct (Hstep DecreaseBrightness (snd (run IncreaseBrightness env)) _ _
                Hreg1 Hnet1 eq_refl eq_refl) as [_ Hnet2].
    rewrite !Hrun, !returning_snd in Hnet2.
    eexists. split; [exact Hnet2|]. cbn.
    split; [reflexivity|]. split; [reflexivity|].
    destruct (min_cases (brightness l + 5) 100) as [[? Hmin]|[? Hmin]];
      destruct (max_cases (JS.Math_min (brightness l + 5) 100 - 5) 0) as [[? Hmax]|[? Hmax]];
      split; intros; lra.
  - destruct (Hstep DecreaseBrightness env d l eq_refl Hd Hl Hw) as [Hreg1 Hnet1].
    destruct (Hstep IncreaseBrightness (snd (run DecreaseBrightness env)) _ _
                Hreg1 Hnet1 eq_refl eq_refl) as [_ Hnet2].
    rewrite !Hrun, !returning_snd in Hnet2.
    eexists. split; [exact Hnet2|]. cbn.
    split; [reflexivity|]. split; [reflexivity|].
    destruct (max_cases (brightness l - 5) 0) as [[? Hmax]|[? Hmax]];
      destruct (min_cases (JS.Math_max (brightness l - 5) 0 + 5) 100) as [[? Hmin]|[? Hmin]];
      split; intros; lra.
Qed.

(** ** What the callbacks of [discover] make of the announcements *)

Section Announcements.
Context {W : Type}.

Lemma on_service_endpoint (service : RemoteService) (b : Browsing W) :
  on_service service b =
  match endpoint_of service with
  | Some endpoint =>
      if length_is (registry b ++ [endpoint]) (count b) then
        {| browse_env := with_keyLights (registry b ++ [endpoint]) (browse_env b);
           find := JS.resolve (find b);
           bonjour_up := false;
           timer_armed := timer_armed b;
           count := count b |}
      else
        {| browse_env := with_keyLights (registry b ++ [endpoint]) (browse_env b);
           find := find b;
           bonjour_up := bonjour_up b;
           timer_armed := timer_armed b;
           count := count b |}
  | None => b
  end.
Proof.
  unfold on_service, endpoint_of. destruct (referer service) as [r|]; [|reflexivity].
  destruct (JS.truthy_string (address r) && JS.truthy_int (service_port service));
    reflexivity.
Qed.

Lemma deliver_all_snoc (b : Browsing W) (evs : list Event) (ev : Event) :
  deliver_all b (evs ++ [ev]) = deliver (deliver_all b evs) ev.
Proof. unfold deliver_all. rewrite fold_left_app. reflexivity. Qed.

Lemma reached_more (cnt : option Z) (found : nat) :
  reached cnt found = true -> reached cnt (S found) = true.
Proof.
  unfold reached. destruct cnt as [n|]; [|discriminate].
  rewrite !andb_true_iff, !Z.leb_le. lia.
Qed.

Lemma reached_zero (cnt : option Z) : reached cnt 0 = false.
Proof.
  unfold reached. destruct cnt as [n|]; [|reflexivity].
  apply andb_false_iff. rewrite !Z.leb_gt. lia.
Qed.

Lemma length_is_reached (cnt : option Z) (kls : list KeylightConfig) (endpoint : KeylightConfig) :
  reached cnt (length kls) = false ->
  length_is (kls ++ [endpoint]) cnt = reached cnt (length (kls ++ [endpoint])).
Proof.
  unfold reached, length_is. rewrite length_app. cbn [length].
  destruct cnt as [n|]; [|reflexivity].
  intros Hnot. apply andb_false_iff in Hnot. rewrite !Z.leb_gt in Hnot.
  destruct (Z.eqb_spec (Z.of_nat (length kls + 1)) n) as [Heq|Hne]; symmetry.
  - apply andb_true_iff. rewrite !Z.leb_le. lia.
  - apply andb_false_iff. rewrite !Z.leb_gt. lia.
Qed.

Lemma first_found_reached (cnt : option Z) (eps : list KeylightConfig)
    (endpoint : KeylightConfig) :
  reached cnt (length eps) = true ->
  first_found cnt (eps ++ [endpoint]) = first_found cnt eps.
Proof.
  intros Hreached. unfold first_found.
  destruct cnt as [n|]; [|discriminate].
  rewrite length_app. cbn [length]. rewrite Nat.add_1_r.
  rewrite (reached_more _ _ Hreached), Hreached.
  apply take_app_le. unfold reached in Hreached.
  apply andb_true_iff in Hreached. rewrite !Z.leb_le in Hreached. lia.
Qed.

Lemma first_found_all (cnt : option Z) (eps : list KeylightConfig) :
  reached cnt (length eps) = false \/
  (exists n, cnt = Some n /\ Z.of_nat (length eps) = n) ->
  first_found cnt eps = eps.
Proof.
  unfold first_found. intros [Hnot|(n & -> & Hn)].
  - destruct cnt; [rewrite Hnot|]; reflexivity.
  - destruct (reached (Some n) (length eps)); [|reflexivity].
    apply take_ge. lia.
Qed.

(** The state of a discovery after any events, told from the usable
    announcements among them. *)
Lemma browse_run (preferences : Preferences) (env : Env W) (evs : list Event) :
  let b := deliver_all (browse preferences env) evs in
  let cnt := JS.parseInt (keyLights_count preferences) in
  let eps := omap usable evs in
  registry b = first_found cnt eps /\
  bonjour_up b = negb (reached cnt (length eps)) /\
  count b = cnt /\
  (find b = JS.Fulfilled -> reached cnt (length eps) = true) /\
  network (browse_env b) = network env /\
  requests (browse_env b) = requests env ++ [BROWSE "elg"].
Proof.
  cbv zeta. induction evs as [|ev evs IH] using rev_ind.
  - pose proof (reached_zero (JS.parseInt (keyLights_count preferences))) as Hzero.
    split; [symmetry; apply first_found_all; left; exact Hzero|].
    split; [cbn [omap list_omap length]; rewrite Hzero; reflexivity|].
    split; [reflexivity|]. split; [discriminate|]. split; reflexivity.
  - rewrite deliver_all_snoc, omap_app.
    set (b := deliver_all (browse preferences env) evs) in *.
    set (cnt := JS.parseInt (keyLights_count preferences)) in *.
    set (eps := omap usable evs) in *.
    destruct IH as (Hreg & Hup & Hcount & Hfind & Hnet & Hreq).
    destruct ev as [service|]; cbn [deliver omap usable list_omap].
    + change (omap usable [Announced service])
        with (match endpoint_of service with Some e => [e] | None => [] end).
      destruct (bonjour_up b) eqn:Hb.
      * symmetry in Hup. apply negb_true_iff in Hup.
        rewrite on_service_endpoint.
        destruct (endpoint_of service) as [endpoint|].
        2:{ rewrite app_nil_r. repeat split; auto. rewrite Hb, Hup. reflexivity. }
        assert (Hall : registry b = eps).
        { rewrite Hreg. apply first_found_all. left. exact Hup. }
        rewrite Hcount, Hall.
        rewrite (length_is_reached cnt eps endpoint) by exact Hup.
        destruct (reached cnt (length (eps ++ [endpoint]))) eqn:Hnow; cbn.
        -- unfold registry. cbn. repeat split; auto.
           symmetry. apply first_found_all. right.
           unfold reached in Hnow, Hup. destruct cnt as [n|]; [|discriminate].
           exists n. split; [reflexivity|].
           apply andb_true_iff in Hnow. rewrite !Z.leb_le in Hnow.
           apply andb_false_iff in Hup. rewrite !Z.leb_gt in Hup.
           rewrite length_app in *. cbn [length] in *. lia.
        -- unfold registry. cbn. repeat split; auto.
           ++ symmetry. apply first_found_all. left. exact Hnow.
           ++ intros Hfulfilled. specialize (Hfind Hfulfilled). congruence.
      * symmetry in Hup. apply negb_false_iff in Hup.
        assert (Hmore : reached cnt (length (eps ++ match endpoint_of service with
                                                    | Some e => [e] | None => [] end)) = true).
        { destruct (endpoint_of service); [|rewrite app_nil_r; exact Hup].
          rewrite length_app. cbn [length]. rewrite Nat.add_1_r.
          apply reached_more. exact Hup. }
        rewrite Hmore. repeat split; auto.
        destruct (endpoint_of service); [|rewrite app_nil_r; exact Hreg].
        rewrite first_found_reached by exact Hup. exact Hreg.
    + change (omap usable [Elapsed]) with (@nil KeylightConfig). rewrite app_nil_r.
      destruct (timer_armed b); [|repeat split; auto].
      unfold on_timeout. change (registry (disarm b)) with (registry b).
      destruct (length (registry b) =? 0)%nat eqn:Hempty; cbn; repeat split; auto.
      intros Hfulfilled. apply Hfind.
      destruct (find b); cbn in Hfulfilled; congruence.
Qed.

Lemma deliver_settled (b : Browsing W) (ev : Event) :
  find b <> JS.Pending -> find (deliver b ev) = find b.
Proof.
  intros Hsettled. destruct ev as [service|]; cbn [deliver].
  - destruct (bonjour_up b); [|reflexivity]. rewrite on_service_endpoint.
    destruct (endpoint_of service); [|reflexivity].
    destruct (length_is _ _); cbn; [|reflexivity].
    destruct (find b); [contradiction|reflexivity..].
  - destruct (timer_armed b); [|reflexivity]. unfold on_timeout.
    destruct (length (registry (disarm b)) =? 0)%nat; cbn; [|reflexivity].
    destruct (find b); [contradiction|reflexivity..].
Qed.

Lemma deliver_found (b : Browsing W) (ev : Event) :
  registry b <> [] ->
  registry (deliver b ev) <> [] /\
  (find (deliver b ev) = find b \/
   (find b = JS.Pending /\ find (deliver b ev) = JS.Fulfilled)).
Proof.
  intros Hfound. destruct ev as [service|]; cbn [deliver].
  - destruct (bonjour_up b); [|auto]. rewrite on_service_endpoint.
    destruct (endpoint_of service) as [endpoint|]; [|auto].
    assert (Hpushed : registry b ++ [endpoint] <> []).
    { intros Hnil. apply app_eq_nil in Hnil as [_ Hnil]. discriminate. }
    destruct (length_is _ _); cbn; (split; [exact Hpushed|]); [|auto].
    destruct (find b); cbn; auto.
  - destruct (timer_armed b); [|auto].
    rewrite on_timeout_found by exact Hfound. auto.
Qed.

End Announcements.

Section DiscoveryFacts.
Context {W : Type}.

(** X11. After any announcements and timer, the registry holds the
    endpoints of the usable announcements (those with an address and a
    port) in the order they came, cut after the one that reached the count
    if one did; whatever the registry held before [discover] is gone. The
    callbacks send nothing: the one request of the discovery is the
    browsing for the type elg. *)
Theorem registry_is_first_found (preferences : Preferences) (env : Env W)
    (evs : list Event) :
  let b := deliver_all (browse preferences env) evs in
  registry b = first_found (JS.parseInt (keyLights_count preferences)) (omap usable evs) /\
  network (browse_env b) = network env /\
  requests (browse_env b) = requests env ++ [BROWSE "elg"].
Proof.
  destruct (browse_run preferences env evs) as (Hreg & _ & _ & _ & Hnet & Hreq).
  cbv zeta. auto.
Qed.

(** X12. Bonjour is destroyed exactly when the usable announcements have
    reached the count, by the timer or not: it is down if and only if the
    count is a number of at least 1 and that many usable services were
    announced. In particular the timer, also when it rejects, leaves
    Bonjour up. *)
Theorem bonjour_down_iff_count_reached (preferences : Preferences) (env : Env W)
    (evs : list Event) :
  let b := deliver_all (browse preferences env) evs in
  (bonjour_up b = false <->
   exists n, JS.parseInt (keyLights_count preferences) = Some n /\
             (1 <= n <= Z.of_nat (length (omap usable evs)))%Z) /\
  bonjour_up (deliver b Elapsed) = bonjour_up b.
Proof.
  destruct (browse_run preferences env evs) as (_ & Hup & _).
  destruct (browse_run preferences env (evs ++ [Elapsed])) as (_ & Hup' & _).
  cbv zeta in *. rewrite deliver_all_snoc in Hup'. split.
  - rewrite Hup, negb_false_iff. unfold reached.
    destruct (JS.parseInt (keyLights_count preferences)) as [n|].
    + rewrite andb_true_iff, !Z.leb_le. split.
      * intros Hn. exists n. auto.
      * intros (n' & Hn' & Hle). injection Hn' as ->. exact Hle.
    + split; [discriminate|intros (n & Hn & _); discriminate].
  - rewrite Hup', Hup, omap_app. cbn. rewrite app_nil_r. reflexivity.
Qed.

(** X13. When [keyLights_count] does not parse, or parses to 0 or less,
    [find] is never fulfilled and Bonjour is never destroyed: every usable
    announcement is pushed, however many come. *)
Theorem unreachable_count_never_fulfils (preferences : Preferences) (env : Env W)
    (evs : list Event) :
  (JS.parseInt (keyLights_count preferences) = None \/
   exists n, JS.parseInt (keyLights_count preferences) = Some n /\ (n <= 0)%Z) ->
  let b := deliver_all (browse preferences env) evs in
  find b <> JS.Fulfilled /\
  bonjour_up b = true /\
  registry b = omap usable evs.
Proof.
  intros Hcount. destruct (browse_run preferences env evs) as (Hreg & Hup & _ & Hfind & _).
  cbv zeta in *.
  assert (Hnever : reached (JS.parseInt (keyLights_count preferences))
                           (length (omap usable evs)) = false).
  { unfold reached. destruct Hcount as [->|(n & -> & Hn)]; [reflexivity|].
    apply andb_false_iff. left. apply Z.leb_gt. lia. }
  split; [intros Hfulfilled; apply Hfind in Hfulfilled; congruence|].
  split; [rewrite Hup, Hnever; reflexivity|].
  rewrite Hreg. apply first_found_all. left. exact Hnever.
Qed.

(** X14. [find] settles once: after it is fulfilled or rejected, no
    announcement and no timer changes it. *)
Theorem settled_find_stays (b : Browsing W) (later : list Event) :
  find b <> JS.Pending -> find (deliver_all b later) = find b.
Proof.
  revert b. induction later as [|ev later IH]; intros b Hsettled; [reflexivity|].
  cbn [deliver_all fold_left]. change (fold_left deliver later ?x) with (deliver_all x later).
  rewrite IH; rewrite deliver_settled by exact Hsettled; [reflexivity|exact Hsettled].
Qed.

(** X15. Once the registry holds an endpoint, nothing rejects [find]: it
    stays as it is, or turns from pending to fulfilled. So a discovery
    that found some endpoints but fewer than the count stays pending when
    the timer fires. *)
Theorem found_endpoint_prevents_rejection (b : Browsing W) (later : list Event) :
  registry b <> [] ->
  find (deliver_all b later) = find b \/
  (find b = JS.Pending /\ find (deliver_all b later) = JS.Fulfilled).
Proof.
  revert b. induction later as [|ev later IH]; intros b Hfound; [left; reflexivity|].
  cbn [deliver_all fold_left]. change (fold_left deliver later ?x) with (deliver_all x later).
  destruct (deliver_found b ev Hfound) as [Hfound' Hstep].
  destruct (IH (deliver b ev) Hfound') as [Hsame|[Hpending Hfulfilled]].
  - rewrite Hsame. exact Hstep.
  - right. destruct Hstep as [Hstep|[Hp Hf]]; [|congruence].
    split; [congruence|exact Hfulfilled].
Qed.

End DiscoveryFacts.

(** ** Blank entries of the static list *)

Lemma blank_append (a b : string) : blank (a +:+ b) = blank a && blank b.
Proof.
  induction a as [|c a IH]; [reflexivity|].
  rewrite append_cons. cbn [blank]. rewrite IH, andb_assoc. reflexivity.
Qed.

Lemma trimStart_blank (s : string) : blank s = true -> JS.trimStart s = EmptyString.
Proof.
  induction s as [|c s IH]; [reflexivity|]. cbn [blank JS.trimStart].
  intros Hblank. apply andb_true_iff in Hblank as [Hc Hs]. rewrite Hc. apply IH, Hs.
Qed.

Lemma trim_empty_iff (entry : string) :
  JS.trim entry = EmptyString <-> blank entry = true.
Proof.
  split.
  - intros Hempty. destruct (trim_trimmed entry) as (before & after & Hentry & Hb & Ha & _).
    rewrite Hempty, append_nil in Hentry. rewrite Hentry, blank_append, Hb, Ha. reflexivity.
  - intros Hblank. unfold JS.trim. rewrite (trimStart_blank _ Hblank). reflexivity.
Qed.

Section StaticEdges.
Context {W : Type}.

(** X16. With a static list, [discover] never leaves the registry empty
    and does not check the entries: an entry that is empty or all white
    space (as after a trailing comma) gives an endpoint whose [ip] is the
    empty string, and only such an entry does. The new registry does not
    depend on what the registry, the network or the requests were. *)
Theorem static_discovery_takes_blank_entries (preferences : Preferences) (env : Env W)
    (listed : string) :
  keyLights_ips preferences = Some listed ->
  listed <> EmptyString ->
  exists kls,
    kls <> [] /\
    (forall other : Env W, discover preferences other = Returned (with_keyLights kls other)) /\
    discover preferences env = Returned (with_keyLights kls env) /\
    Forall2 (fun entry endpoint => blank entry = true <-> ip endpoint = EmptyString)
            (JS.split "," listed) kls.
Proof.
  intros Hips Hlisted.
  exists (map (fun ip => {| ip := ip; port := 9123 |}) (map JS.trim (JS.split "," listed))).
  assert (Hdiscover : forall other : Env W,
             discover preferences other =
             Returned (with_keyLights
                         (map (fun ip => {| ip := ip; port := 9123 |})
                              (map JS.trim (JS.split "," listed))) other)).
  { intros other. unfold discover. rewrite Hips.
    destruct listed as [|c rest]; [contradiction|]. reflexivity. }
  split.
  { pose proof (split_not_nil "," listed) as Hne.
    destruct (JS.split "," listed); [contradiction|discriminate]. }
  split; [exact Hdiscover|]. split; [apply Hdiscover|]. clear Hdiscover.
  induction (JS.split "," listed) as [|entry entries IH]; [constructor|].
  cbn [map]. constructor; [|exact IH]. cbn [ip]. symmetry. apply trim_empty_iff.
Qed.

End StaticEdges.

(** ** The command of [toggle.ts] *)

Section Command.
Context {W : Type} `{Axios W}.

Lemma toggle_run (env env' : Env W) (isOn : option bool) :
  toggle env = (Normal isOn, env') -> run Toggle env = (Normal (value_of_bool isOn), env').
Proof. intros Htoggle. cbn [run]. unfold returning. rewrite Htoggle. reflexivity. Qed.



End Command.

(** ** The outcome of a discovery *)

Lemma timer_came_first_announced (evs : list Event) (service : RemoteService) :
  timer_came_first (evs ++ [Announced service]) = timer_came_first evs.
Proof.
  induction evs as [|[s|] evs IH]; cbn.
  - destruct (endpoint_of service); reflexivity.
  - destruct (endpoint_of s); [reflexivity|exact IH].
  - reflexivity.
Qed.

Lemma timer_came_first_elapsed (evs : list Event) :
  timer_came_first (evs ++ [Elapsed]) =
  timer_came_first evs ||
  (negb (existsb is_elapsed evs) && bool_decide (omap usable evs = [])).
Proof.
  induction evs as [|[s|] evs IH]; cbn; [reflexivity| |reflexivity].
  destruct (endpoint_of s); [|exact IH].
  rewrite bool_decide_eq_false_2 by discriminate. rewrite andb_false_r. reflexivity.
Qed.

Lemma timer_came_first_needs_timer (evs : list Event) :
  existsb is_elapsed evs = false -> timer_came_first evs = false.
Proof.
  induction evs as [|[s|] evs IH]; cbn; [reflexivity| |discriminate].
  intros Hnone. destruct (endpoint_of s); [reflexivity|apply IH, Hnone].
Qed.

Lemma first_found_nil (cnt : option Z) (eps : list KeylightConfig) :
  first_found cnt eps = [] <-> eps = [].
Proof.
  split; [|intros ->; unfold first_found; destruct cnt; [rewrite reached_zero|]; reflexivity].
  unfold first_found, reached. destruct cnt as [n|]; [|auto].
  destruct ((1 <=? n)%Z && (n <=? Z.of_nat (length eps))%Z) eqn:Hreached; [|auto].
  apply andb_true_iff in Hreached as [Hone _]. apply Z.leb_le in Hone.
  destruct eps as [|e eps]; [reflexivity|].
  destruct (Z.to_nat n) eqn:Hn; [lia|discriminate].
Qed.

Section Outcome.
Context {W : Type}.

Lemma browse_outcome (preferences : Preferences) (env : Env W) (evs : list Event) :
  let b := deliver_all (browse preferences env) evs in
  timer_armed b = negb (existsb is_elapsed evs) /\
  find b = outcome (JS.parseInt (keyLights_count preferences)) evs.
Proof.
  cbv zeta. induction evs as [|ev evs [Htimer Hfind]] using rev_ind.
  - split; [reflexivity|]. unfold outcome. cbn. rewrite reached_zero. reflexivity.
  - destruct (browse_run preferences env evs) as (Hreg & Hup & Hcount & _).
    rewrite deliver_all_snoc, existsb_app. cbv zeta in *.
    set (b := deliver_all (browse preferences env) evs) in *.
    set (cnt := JS.parseInt (keyLights_count preferences)) in *.
    unfold outcome in *. rewrite omap_app.
    destruct ev as [service|]; cbn [deliver existsb is_elapsed].
    + rewrite timer_came_first_announced, orb_false_r.
      change (omap usable [Announced service])
        with (match endpoint_of service with Some e => [e] | None => [] end).
      destruct (bonjour_up b) eqn:Hb.
      * symmetry in Hup. apply negb_true_iff in Hup.
        rewrite on_service_endpoint.
        destruct (endpoint_of service) as [endpoint|];
          [|rewrite app_nil_r; split; assumption].
        assert (Hall : registry b = omap usable evs).
        { rewrite Hreg. apply first_found_all. left. exact Hup. }
        rewrite Hcount, Hall.
        rewrite (length_is_reached cnt _ endpoint) by exact Hup.
        rewrite Hup in Hfind.
        destruct (reached cnt (length (omap usable evs ++ [endpoint]))); cbn;
          (split; [exact Htimer|]); rewrite Hfind;
          destruct (timer_came_first evs); reflexivity.
      * symmetry in Hup. apply negb_false_iff in Hup. split; [exact Htimer|].
        rewrite Hfind, Hup.
        destruct (endpoint_of service); [|rewrite app_nil_r, Hup; reflexivity].
        rewrite length_app. cbn [length]. rewrite Nat.add_1_r.
        rewrite (reached_more _ _ Hup). reflexivity.
    + rewrite timer_came_first_elapsed.
      change (omap usable [Elapsed]) with (@nil KeylightConfig). rewrite app_nil_r.
      rewrite orb_true_r. destruct (timer_armed b) eqn:Harmed.
      * symmetry in Htimer. apply negb_true_iff in Htimer. rewrite Htimer.
        rewrite (timer_came_first_needs_timer _ Htimer) in Hfind |- *.
        cbn [negb andb orb]. unfold on_timeout.
        change (registry (disarm b)) with (registry b).
        destruct (omap usable evs) as [|e eps] eqn:Heps.
        -- assert (Hnil : registry b = []) by (rewrite Hreg; apply first_found_nil; reflexivity).
           rewrite Hnil. cbn. split; [reflexivity|].
           rewrite Hfind, reached_zero. reflexivity.
        -- assert (Hsome : registry b <> []).
           { rewrite Hreg. intros Hnil. apply first_found_nil in Hnil. discriminate. }
           destruct (registry b) as [|k kls]; [contradiction|]. cbn.
           split; [reflexivity|]. exact Hfind.
      * symmetry in Htimer. apply negb_false_iff in Htimer. rewrite Htimer.
        cbn [negb andb]. rewrite orb_false_r. split; [exact Harmed|exact Hfind].
Qed.

(** X18. The promise [find] is a function of what happened, in this
    order of precedence: it is rejected with the error of no Key Light
    found when the timer fired before any usable announcement came;
    otherwise it is fulfilled when the count is a number of at least 1 and
    that many usable announcements have come; otherwise it is pending, for
    ever if no more announcements come. *)
Theorem find_is_outcome (preferences : Preferences) (env : Env W) (evs : list Event) :
  find (deliver_all (browse preferences env) evs) =
  outcome (JS.parseInt (keyLights_count preferences)) evs.
Proof.
  destruct (browse_outcome preferences env evs) as [_ Hfind]. exact Hfind.
Qed.

End Outcome.

(** ** The URL of an endpoint *)

Lemma occurrences_append (c : ascii) (a b : string) :
  occurrences c (a +:+ b) = (occurrences c a + occurrences c b)%nat.
Proof.
  induction a as [|x a IH]; [reflexivity|].
  rewrite append_cons. cbn [occurrences]. rewrite IH. lia.
Qed.

(** Two strings cut at their last [c] are equal piece by piece. *)
Lemma cut_at_last (c : ascii) (a a' q q' : string) :
  occurrences c q = 0%nat -> occurrences c q' = 0%nat ->
  a +:+ String c q = a' +:+ String c q' ->
  a = a' /\ q = q'.
Proof.
  intros Hq Hq'. revert a'. induction a as [|x a IH]; intros [|x' a'] Heq.
  - rewrite !append_nil in Heq. injection Heq as ->. auto.
  - rewrite append_nil, append_cons in Heq. injection Heq as <- ->.
    rewrite occurrences_append in Hq. cbn [occurrences] in Hq.
    rewrite Ascii.eqb_refl in Hq. lia.
  - rewrite append_nil, append_cons in Heq. injection Heq as -> <-.
    rewrite occurrences_append in Hq'. cbn [occurrences] in Hq'.
    rewrite Ascii.eqb_refl in Hq'. lia.
  - rewrite !append_cons in Heq. injection Heq as -> Heq.
    destruct (IH a' Heq) as [-> ->]. auto.
Qed.

(** Two strings cut at their first [c] are equal piece by piece. *)
Lemma cut_at_first (c : ascii) (a a' q q' : string) :
  occurrences c a = 0%nat -> occurrences c a' = 0%nat ->
  a +:+ String c q = a' +:+ String c q' ->
  a = a' /\ q = q'.
Proof.
  revert a'. induction a as [|x a IH]; intros [|x' a'] Ha Ha' Heq.
  - rewrite !append_nil in Heq. injection Heq as ->. auto.
  - rewrite append_nil, append_cons in Heq. injection Heq as <- _.
    cbn [occurrences] in Ha'. rewrite Ascii.eqb_refl in Ha'. lia.
  - rewrite append_nil, append_cons in Heq. injection Heq as -> _.
    cbn [occurrences] in Ha. rewrite Ascii.eqb_refl in Ha. lia.
  - rewrite !append_cons in Heq. injection Heq as -> Heq.
    cbn [occurrences] in Ha, Ha'.
    destruct (IH a') as [-> ->]; [lia|lia|exact Heq|auto].
Qed.

Lemma pretty_N_char_plain (c : ascii) (d : N) :
  c = ":"%char \/ c = "/"%char -> Ascii.eqb (pretty_N_char d) c = false.
Proof.
  intros [-> | ->]; unfold pretty_N_char;
    (destruct d as [|p]; [reflexivity|]);
    repeat (destruct p as [p|p|]; try reflexivity).
Qed.

(** The decimal digits of a number hold no colon and no slash. *)
Lemma pretty_N_go_plain (c : ascii) (x : N) (s : string) :
  c = ":"%char \/ c = "/"%char ->
  occurrences c s = 0%nat -> occurrences c (pretty_N_go x s) = 0%nat.
Proof.
  intros Hc. revert s. induction (N.lt_wf_0 x) as [x _ IH]; intros s Hs.
  assert (x = 0 \/ 0 < x)%N as [->|Hpos] by lia.
  - rewrite pretty_N_go_0. exact Hs.
  - rewrite pretty_N_go_step by exact Hpos. apply IH.
    + apply N.div_lt; [exact Hpos|reflexivity].
    + cbn [occurrences]. rewrite Hs, (pretty_N_char_plain c _ Hc). reflexivity.
Qed.

Lemma pretty_Z_plain (c : ascii) (z : Z) :
  c = ":"%char \/ c = "/"%char -> occurrences c (pretty z) = 0%nat.
Proof.
  intros Hc.
  assert (Hpos : forall p : positive, occurrences c (pretty p) = 0%nat).
  { intros p. unfold pretty, pretty_positive, pretty, pretty_N.
    case_decide; [discriminate|]. apply pretty_N_go_plain; [exact Hc|reflexivity]. }
  destruct z as [|p|p]; unfold pretty, pretty_Z.
  - destruct Hc as [-> | ->]; reflexivity.
  - apply Hpos.
  - rewrite occurrences_append. fold (pretty p). rewrite Hpos.
    destruct Hc as [-> | ->]; reflexivity.
Qed.

(** X19. The URL tells the endpoint: two endpoints have the same URL only
    if they have the same [ip] and the same [port], so the requests for
    different endpoints of a registry go to different URLs. *)
Theorem lights_url_tells_endpoint (k1 k2 : KeylightConfig) :
  lights_url k1 = lights_url k2 <-> k1 = k2.
Proof.
  split; [|intros ->; reflexivity].
  unfold lights_url. intros Heq.
  apply (String.app_inj "http://") in Heq.
  change (":" +:+ ?rest) with (String ":" rest) in Heq.
  assert (Hplain : forall z : Z, occurrences ":" (pretty z +:+ "/elgato/lights") = 0%nat).
  { intros z. rewrite occurrences_append, pretty_Z_plain by (left; reflexivity).
    reflexivity. }
  apply cut_at_last in Heq as [Hip Hrest]; [|apply Hplain..].
  change "/elgato/lights" with (String "/" "elgato/lights") in Hrest.
  apply cut_at_first in Hrest as [Hport _];
    [|apply pretty_Z_plain; right; reflexivity..].
  apply (inj pretty) in Hport.
  destruct k1, k2. cbn in *. subst. reflexivity.
Qed.

(** ** A registry that lists an endpoint twice *)

(** X20. When the registry names the same responsive device twice,
    [toggle] switches it and switches it back: it sends the GET and the
    PUT of the negated power, then the GET and the PUT of the power the
    device had at first; the network ends as it was, and the value
    returned is the power the device had, not a new one. *)
Theorem listed_twice_toggles_back (k : KeylightConfig) (lan : gmap string Device)
    (sent : list Request) (d : Device) (l : Light) (ls : list Light) :
  lan !! lights_url k = Some d ->
  lights d = l :: ls ->
  writable d = true ->
  let outcome := toggle {| keyLights := [k; k]; network := lan; requests := sent |} in
  fst outcome = Normal (Some (on l)) /\
  network (snd outcome) = lan /\
  requests (snd outcome) =
    sent ++ [GET (lights_url k); PUT (lights_url k) [only_on (negb (on l))];
             GET (lights_url k); PUT (lights_url k) [only_on (on l)]].
Proof.
  intros Hd Hl Hw outcome.
  set (env := {| keyLights := [k; k]; network := lan; requests := sent |}).
  assert (Hrun : fst (run Toggle env) = Normal (boolean (on l)) /\
                 network (snd (run Toggle env)) = lan /\
                 requests (snd (run Toggle env)) =
                   sent ++ [GET (lights_url k); PUT (lights_url k) [only_on (negb (on l))];
                            GET (lights_url k); PUT (lights_url k) [only_on (on l)]]).
  { rewrite run_loop. cbn [keyLights env]. rewrite loop_cons.
    destruct (attempt_lan Toggle k env)
      as [(d1 & l1 & ls1 & env1 & Hd1 & Hl1 & _ & -> & Hnet1 & _ & Hreq1)|(Hk & _)].
    2:{ exfalso. assert (Hresponsive : responsive lan k = true).
        { apply responsive_iff. exists d, l, ls. auto. }
        cbn in Hk. congruence. }
    cbn in Hd1. rewrite Hd in Hd1. injection Hd1 as <-.
    rewrite Hl in Hl1. injection Hl1 as <- <-.
    assert (Hd2 : network env1 !! lights_url k = Some (written [pushed Toggle l] d)).
    { rewrite Hnet1. apply lookup_insert_eq. }
    rewrite loop_cons.
    destruct (attempt_lan Toggle k env1)
      as [(d2 & l2 & ls2 & env2 & Hd2' & Hl2 & _ & -> & Hnet2 & _ & Hreq2)|(Hk & _)].
    2:{ exfalso. assert (Hresponsive : responsive (network env1) k = true).
        { apply responsive_iff.
          exists (written [pushed Toggle l] d), (merge (pushed Toggle l) l), ls.
          split; [exact Hd2|]. split; [unfold written; rewrite Hl; reflexivity|exact Hw]. }
        congruence. }
    rewrite Hd2 in Hd2'. injection Hd2' as <-.
    unfold written in Hl2. rewrite Hl in Hl2. cbn in Hl2. injection Hl2 as <- <-.
    cbn [for_of ret fst snd].
    split; [cbn; rewrite negb_involutive; reflexivity|]. split.
    - rewrite Hnet2, Hnet1. cbn [network env].
      rewrite insert_insert_eq. apply insert_id. rewrite Hd. f_equal.
      destruct d as [lights0 w0]. cbn in *. subst. unfold written. cbn.
      destruct l. cbn. rewrite negb_involutive. reflexivity.
    - rewrite Hreq2, Hreq1. cbn [requests env]. rewrite <- app_assoc.
      cbn. rewrite negb_involutive. reflexivity. }
  destruct Hrun as (Hvalue & Hnet & Hreq).
  unfold outcome. fold env.
  rewrite <- (returning_snd value_of_bool toggle env).
  change (returning value_of_bool toggle env) with (run Toggle env).
  split; [apply toggle_returns; exact Hvalue|]. split; [exact Hnet|exact Hreq].
Qed.

(** ** The further properties on the sample installations *)

Lemma completed_operation_trace_witness :
  let env := start [desk; shelf] both in
  let env' := snd (run IncreaseBrightness env) in
  exists fetched,
    map fst fetched = keyLights env /\
    all_answered fetched /\
    requests env' = requests env ++ exchanges IncreaseBrightness fetched /\
    length (requests env') = (length (requests env) + 2 * length (keyLights env))%nat /\
    number 15 = last_computed IncreaseBrightness fetched /\
    keyLights env' = keyLights env.
Proof.
  cbv zeta.
  apply (completed_operation_trace IncreaseBrightness (start [desk; shelf] both)).
  vm_compute. reflexivity.
Defined.

Lemma aborted_operation_trace_witness :
  let env := start [desk; shelf] (alone desk (light true 98 200) true) in
  let env' := snd (run Toggle env) in
  exists before k after fetched,
    keyLights env = before ++ k :: after /\
    Error "Failed toggling Key Light at 192.168.1.21" = failure Toggle k /\
    map fst fetched = before /\
    all_answered fetched /\
    (requests env' = requests env ++ exchanges Toggle fetched ++ [GET (lights_url k)] \/
     exists state,
       answers (lights_url k) state /\
       requests env' = requests env ++ exchanges Toggle fetched ++ exchange Toggle (k, state)).
Proof.
  cbv zeta.
  apply (aborted_operation_trace Toggle
           (start [desk; shelf] (alone desk (light true 98 200) true))).
  vm_compute. reflexivity.
Defined.

Lemma last_endpoint_decides_result_witness :
  boolean true <> undefined /\
  exists state, answers (lights_url shelf) state /\ boolean true = computed Toggle state.
Proof.
  apply (last_endpoint_decides_result Toggle (start [desk; shelf] both)
           (snd (run Toggle (start [desk; shelf] both))) (boolean true) [desk] shelf).
  - reflexivity.
  - vm_compute. reflexivity.
Defined.

Lemma empty_lights_array_aborts_witness :
  let env := start [desk; shelf] (dark desk) in
  getKeyLight desk env
    = (Normal None, after_request env (GET (lights_url desk)) (dark desk)) /\
  run DecreaseTemperature env
    = (Throw (failure DecreaseTemperature desk),
       after_request env (GET (lights_url desk)) (dark desk)).
Proof.
  cbv zeta.
  apply (empty_lights_array_aborts DecreaseTemperature desk [shelf]
           (start [desk; shelf] (dark desk)) (dark desk)).
  - reflexivity.
  - vm_compute. reflexivity.
Defined.

Lemma brightness_step_or_bound_witness :
  let env := start [desk; shelf] both in
  exists q more,
    requests (snd (increaseBrightness env)) =
      (requests (snd (increaseBrightness (with_keyLights [desk] env)))
       ++ [GET (lights_url shelf)])
      ++ PUT (lights_url shelf) [only_brightness q] :: more /\
    q = JS.Math_min (brightness (light false 10 200) + 5) 100 /\
    JS.isInteger q = true /\
    ((brightness (light false 10 200) <= 95 -> q == brightness (light false 10 200) + 5) /\
     (95 <= brightness (light false 10 200) -> q == 100))%Q.
Proof.
  cbv zeta.
  refine (proj1 (brightness_step_or_bound
                   (start [desk; shelf] both)
                   (snd (increaseBrightness (with_keyLights [desk] (start [desk; shelf] both))))
                   (after_request
                      (snd (increaseBrightness
                              (with_keyLights [desk] (start [desk; shelf] both))))
                      (GET (lights_url shelf))
                      (network (snd (increaseBrightness
                                       (with_keyLights [desk] (start [desk; shelf] both))))))
                   [desk] [] shelf (light false 10 200) _ _ _ _)
            (Some 100%Q) _).
  - reflexivity.
  - vm_compute. reflexivity.
  - reflexivity.
  - cbn. split; lra.
  - vm_compute. reflexivity.
Defined.

Lemma alone_in_domain (k : KeylightConfig) (l : Light) (accepts : bool) :
  in_domain l -> all_in_domain (alone k l accepts).
Proof.
  intros Hl url d l' Hd Hl'. unfold alone in Hd.
  apply lookup_singleton_Some in Hd as [_ <-]. cbn in Hl'.
  apply list_elem_of_singleton in Hl' as ->. exact Hl.
Qed.

Lemma operations_keep_domains_witness :
  all_in_domain
    (network (snd (run IncreaseTemperature
                     {| keyLights := [desk; desk];
                        network := alone desk (light true 98 340) true;
                        requests := [] |}))).
Proof.
  apply (operations_keep_domains IncreaseTemperature [desk; desk]
           (alone desk (light true 98 340) true) []).
  apply alone_in_domain. unfold in_domain, WARM_TEMPERATURE, COLD_TEMPERATURE. cbn.
  repeat split; lra.
Defined.

Lemma first_endpoint_keeps_change_witness :
  let outcome := run IncreaseBrightness
                   {| keyLights := [desk; shelf];
                      network := alone desk (light true 40 200) true;
                      requests := [] |} in
  fst outcome = Throw (failure IncreaseBrightness shelf) /\
  network (snd outcome)
    = <[lights_url desk := written [pushed IncreaseBrightness (light true 40 200)]
                             {| lights := [light true 40 200]; writable := true |}]>
        (alone desk (light true 40 200) true).
Proof.
  apply (first_endpoint_keeps_change IncreaseBrightness desk shelf []
           (alone desk (light true 40 200) true) []
           {| lights := [light true 40 200]; writable := true |} (light true 40 200) []).
  - vm_compute. reflexivity.
  - reflexivity.
  - reflexivity.
  - vm_compute. reflexivity.
Defined.

Lemma brightness_round_trip_witness :
  let env := {| keyLights := [desk]; network := alone desk (light true 40 200) true;
                requests := [] |} in
  let up_down := network (snd (decreaseBrightness (snd (increaseBrightness env)))) in
  let down_up := network (snd (increaseBrightness (snd (decreaseBrightness env)))) in
  (exists l',
      up_down !! lights_url desk = Some {| lights := l' :: []; writable := true |} /\
      on l' = on (light true 40 200) /\ temperature l' = temperature (light true 40 200) /\
      ((JS.isInteger (brightness (light true 40 200)) = true ->
        0 <= brightness (light true 40 200) -> brightness (light true 40 200) <= 95 ->
        brightness l' == brightness (light true 40 200)) /\
       (95 <= brightness (light true 40 200) -> brightness l' == 95))%Q) /\
  (exists l',
      down_up !! lights_url desk = Some {| lights := l' :: []; writable := true |} /\
      on l' = on (light true 40 200) /\ temperature l' = temperature (light true 40 200) /\
      ((JS.isInteger (brightness (light true 40 200)) = true ->
        5 <= brightness (light true 40 200) -> brightness (light true 40 200) <= 100 ->
        brightness l' == brightness (light true 40 200)) /\
       (brightness (light true 40 200) <= 5 -> brightness l' == 5))%Q).
Proof.
  apply (brightness_round_trip desk (alone desk (light true 40 200) true) []
           {| lights := [light true 40 200]; writable := true |} (light true 40 200) []).
  - vm_compute. reflexivity.
  - reflexivity.
  - reflexivity.
Defined.

Lemma unreachable_count_never_fulfils_witness :
  let b := deliver_all (browse (wanted "two") idle)
             [announce "192.168.1.20"; announce "192.168.1.21"; Elapsed] in
  find b <> JS.Fulfilled /\
  bonjour_up b = true /\
  registry b = omap usable [announce "192.168.1.20"; announce "192.168.1.21"; Elapsed].
Proof.
  apply (unreachable_count_never_fulfils (wanted "two") idle).
  left. reflexivity.
Defined.

Lemma settled_find_stays_witness :
  let b := deliver_all (browse (wanted "2") idle) [Elapsed] in
  find (deliver_all b [announce "192.168.1.20"; announce "192.168.1.21"]) = find b.
Proof.
  apply (settled_find_stays (deliver_all (browse (wanted "2") idle) [Elapsed])).
  vm_compute. discriminate.
Defined.

Lemma found_endpoint_prevents_rejection_witness :
  let b := deliver_all (browse (wanted "2") idle) [announce "192.168.1.20"] in
  find (deliver_all b [Elapsed]) = find b \/
  (find b = JS.Pending /\ find (deliver_all b [Elapsed]) = JS.Fulfilled).
Proof.
  apply (found_endpoint_prevents_rejection
           (deliver_all (browse (wanted "2") idle) [announce "192.168.1.20"])).
  vm_compute. discriminate.
Defined.

Lemma static_discovery_takes_blank_entries_witness :
  exists kls,
    kls <> [] /\
    (forall other : Env unit,
        discover (static "192.168.1.20, ") other = Returned (with_keyLights kls other)) /\
    discover (static "192.168.1.20, ") idle = Returned (with_keyLights kls idle) /\
    Forall2 (fun entry endpoint => blank entry = true <-> ip endpoint = EmptyString)
            (JS.split "," "192.168.1.20, ") kls.
Proof.
  apply (static_discovery_takes_blank_entries (static "192.168.1.20, ") idle
           "192.168.1.20, ").
  - reflexivity.
  - discriminate.
Defined.


Example command_on_both :
  command (static "192.168.1.20,192.168.1.21") (start [] both)
  = Finished (Normal "Key Light turned on",
              snd (toggle (start [desk; shelf] both))).
Proof. vm_compute. reflexivity. Qed.

Lemma listed_twice_toggles_back_witness :
  let outcome := toggle {| keyLights := [desk; desk];
                           network := alone desk (light true 40 200) true;
                           requests := [] |} in
  fst outcome = Normal (Some (on (light true 40 200))) /\
  network (snd outcome) = alone desk (light true 40 200) true /\
  requests (snd outcome) =
    [] ++ [GET (lights_url desk);
           PUT (lights_url desk) [only_on (negb (on (light true 40 200)))];
           GET (lights_url desk); PUT (lights_url desk) [only_on (on (light true 40 200))]].
Proof.
  apply (listed_twice_toggles_back desk (alone desk (light true 40 200) true) []
           {| lights := [light true 40 200]; writable := true |} (light true 40 200) []).
  - vm_compute. reflexivity.
  - reflexivity.
  - reflexivity.
Defined.
